(** * Water-monitoring dashboard ([App.js])

    A shallow embedding of the timestamp normaliser [parseTimestamp], of the
    derived metrics of the [App] component ([latestReading], [averageReading],
    [pumpStatus], [chartData], the sorted history) and of the state updates of
    [fetchData], followed by the properties the specification states about
    them.

    JavaScript values are embedded as follows.
    - A Number is an IEEE 754 binary64 value: [spec_float] with precision 53
      and maximal exponent 1024, and the operations of [SpecFloat].
    - A String is a [string]; each character stands for one code unit in the
      range U+0000..U+00FF.
    - A Date is its time value: [Some t] for [t] milliseconds since the epoch,
      [None] for the NaN time value of an invalid Date.
    - An abrupt completion (a thrown exception) is explicit: functions that
      may throw return a [completion].
    - What the host environment decides (how [new Date(string)] reads
      a string that is not in the ISO format, the local time zone, the locale
      rendering of a time, [Number::toString]) is a [Variable] of the section
      that holds the program. *)

From Stdlib Require Import ZArith NArith List String Ascii Bool Lia.
From Stdlib Require Import Permutation Sorted SpecFloat DecimalString.
From Stdlib Require QArith Qround.
Import ListNotations.

Local Open Scope string_scope.
Local Open Scope list_scope.
Local Open Scope Z_scope.

(** ** Completions: normal results and thrown exceptions *)

Inductive exception : Type :=
| TypeError
| SyntaxError
| NetworkFailure
| Error (message : string).

Inductive completion (A : Type) : Type :=
| Normal (a : A)
| Throw (e : exception).

Arguments Normal {A} a.
Arguments Throw {A} e.

Definition bind {A B : Type} (c : completion A) (k : A -> completion B)
  : completion B :=
  match c with
  | Normal a => k a
  | Throw e => Throw e
  end.

Notation "x <- c ;; k" := (bind c (fun x => k))
  (at level 61, c at next level, right associativity).

(** [Array.prototype.map] with a callback that may throw. *)
Fixpoint mapM {A B : Type} (f : A -> completion B) (l : list A)
  : completion (list B) :=
  match l with
  | [] => Normal []
  | a :: l' => b <- f a ;; bs <- mapM f l' ;; Normal (b :: bs)
  end.

(** The loop of [Array.prototype.reduce]: the accumulator is threaded from
    left to right through the remaining elements. *)
Fixpoint reduce_from {A B : Type} (f : B -> A -> completion B) (acc : B)
  (l : list A) : completion B :=
  match l with
  | [] => Normal acc
  | a :: l' => acc' <- f acc a ;; reduce_from f acc' l'
  end.

(** [Array.prototype.slice(start)] with no end index: a negative [start]
    counts from the end, and both cases are clamped to the array. *)
Definition slice {A : Type} (start : Z) (l : list A) : list A :=
  let len := Z.of_nat (List.length l) in
  let k := if start <? 0 then Z.max (len + start) 0 else Z.min start len in
  skipn (Z.to_nat k) l.

(** ** Numbers (binary64) *)

Module Number.

Definition prec : Z := 53.
Definition emax : Z := 1024.


(** The Number nearest to an integer (exact below 2^53). *)
Definition of_Z (z : Z) : spec_float := binary_normalize prec emax z 0 false.


Definition isNaN (x : spec_float) : bool :=
  match x with S754_nan => true | _ => false end.

(** ToBoolean of a Number: false for +0, -0 and NaN. *)
Definition truthy (x : spec_float) : bool :=
  match x with
  | S754_zero _ | S754_nan => false
  | _ => true
  end.

(** ToIntegerOrInfinity of a finite Number: truncation toward zero. *)
Definition truncate (s : bool) (m : positive) (e : Z) : Z :=
  let a := if 0 <=? e then Z.pos m * 2 ^ e else Z.pos m / 2 ^ (- e) in
  if s then - a else a.

(** The decimal digits of a natural number, most significant first. *)
Definition digits (n : Z) : string :=
  NilEmpty.string_of_uint (N.to_uint (Z.to_N n)).





Section ToFixed.

(** [Number::toString] of a finite Number of magnitude at least 10^21
    (the only place [toFixed] needs the host's shortest-digits printer). *)
Variable toString : spec_float -> string.


End ToFixed.

End Number.

(** ** Dates: day and time arithmetic (ECMA-262, Time Values and Time Range) *)

Module DateTime.

Definition msPerSecond : Z := 1000.
Definition msPerMinute : Z := 60000.
Definition msPerHour : Z := 3600000.
Definition msPerDay : Z := 86400000.

(** The day number of the first day of year [y]. *)
Definition DayFromYear (y : Z) : Z :=
  365 * (y - 1970) + (y - 1969) / 4 - (y - 1901) / 100 + (y - 1601) / 400.

Definition InLeapYear (y : Z) : bool :=
  ((y mod 4 =? 0) && negb (y mod 100 =? 0)) || (y mod 400 =? 0).

(** The number of days of the year before month [mn] (0 = January). *)
Definition DaysBeforeMonth (leap : bool) (mn : Z) : Z :=
  let l := if leap then 1 else 0 in
  match mn with
  | 0 => 0
  | 1 => 31
  | 2 => 59 + l
  | 3 => 90 + l
  | 4 => 120 + l
  | 5 => 151 + l
  | 6 => 181 + l
  | 7 => 212 + l
  | 8 => 243 + l
  | 9 => 273 + l
  | 10 => 304 + l
  | _ => 334 + l
  end.

(** [MakeDay(year, month, date)]: months beyond 0..11 carry into the year,
    and days beyond the month carry into the following months. *)
Definition MakeDay (year month date : Z) : Z :=
  let ym := year + month / 12 in
  let mn := month mod 12 in
  DayFromYear ym + DaysBeforeMonth (InLeapYear ym) mn + date - 1.

Definition MakeTime (hour min sec ms : Z) : Z :=
  hour * msPerHour + min * msPerMinute + sec * msPerSecond + ms.

Definition MakeDate (day time : Z) : Z := day * msPerDay + time.

(** [TimeClip]: a time value is at most 8.64e15 ms from the epoch. *)
Definition TimeClip (t : Z) : option Z :=
  if Z.abs t <=? 8640000000000000 then Some t else None.

End DateTime.

(** A Date object, as its time value; [None] is the invalid Date. *)
Definition Date : Type := option Z.

Definition InvalidDate : Date := None.

(** [isNaN(date.getTime())] *)
Definition invalid (d : Date) : bool :=
  match d with
  | None => true
  | Some _ => false
  end.

(** [a > b] on Dates: both are converted to their time values, and a
    comparison with NaN is false. *)
Definition Date_gt (a b : Date) : bool :=
  match a, b with
  | Some x, Some y => y <? x
  | _, _ => false
  end.

(** [a - b] on Dates: the difference of the time values, NaN ([None]) when
    either is invalid.  Time values are integers below 2^53 in magnitude, so
    the sign of the rounded binary64 difference is the sign computed here. *)
Definition Date_sub (a b : Date) : option Z :=
  match a, b with
  | Some x, Some y => Some (x - y)
  | _, _ => None
  end.

(** ** The pattern [/(\d{2})\/(\d{2})\/(\d{4})\s(\d{2}):(\d{2}):(\d{2})/] *)

Module RegExp.

Definition code (c : ascii) : N := N_of_ascii c.

(** [\d] *)
Definition is_digit (c : ascii) : bool :=
  ((48 <=? code c) && (code c <=? 57))%N.

(** [\s], on the code units a [string] holds: TAB, LF, VT, FF, CR, SPACE
    and NO-BREAK SPACE. *)
Definition is_space (c : ascii) : bool :=
  (((9 <=? code c) && (code c <=? 13)) || (code c =? 32) || (code c =? 160))%N.

(** [(\d{n})]: the captured digits and the rest of the input. *)
Fixpoint digits (n : nat) (s : string) : option (string * string) :=
  match n with
  | O => Some (EmptyString, s)
  | S n' =>
      match s with
      | String c s' =>
          if is_digit c then
            match digits n' s' with
            | Some (d, rest) => Some (String c d, rest)
            | None => None
            end
          else None
      | EmptyString => None
      end
  end.

(** One character satisfying [p]. *)
Definition char (p : ascii -> bool) (s : string) : option string :=
  match s with
  | String c s' => if p c then Some s' else None
  | EmptyString => None
  end.

Definition lit (c : ascii) : string -> option string := char (Ascii.eqb c).

(** The six capture groups [parts[1]] .. [parts[6]] of a match. *)
Record parts : Type := {
  part1 : string;
  part2 : string;
  part3 : string;
  part4 : string;
  part5 : string;
  part6 : string
}.

Definition andThen {A B : Type} (o : option A) (k : A -> option B)
  : option B :=
  match o with
  | Some a => k a
  | None => None
  end.

Local Notation "x <~ o ;; k" := (andThen o (fun x => k))
  (at level 61, o at next level, right associativity).
Local Notation "' p <~ o ;; k" := (andThen o (fun x => let 'p := x in k))
  (at level 61, p pattern, o at next level, right associativity).

(** A match of the whole pattern starting at the head of [s].  Every piece
    has a fixed width, so there is nothing to backtrack over. *)
Definition match_here (s : string) : option parts :=
  '(p1, s) <~ digits 2 s ;;
  s <~ lit "/" s ;;
  '(p2, s) <~ digits 2 s ;;
  s <~ lit "/" s ;;
  '(p3, s) <~ digits 4 s ;;
  s <~ char is_space s ;;
  '(p4, s) <~ digits 2 s ;;
  s <~ lit ":" s ;;
  '(p5, s) <~ digits 2 s ;;
  s <~ lit ":" s ;;
  '(p6, _) <~ digits 2 s ;;
  Some {| part1 := p1; part2 := p2; part3 := p3;
          part4 := p4; part5 := p5; part6 := p6 |}.

(** [String.prototype.match] with this (non-global, unanchored) pattern:
    the leftmost match, [None] for [null]. *)
Fixpoint exec (s : string) : option parts :=
  match match_here s with
  | Some p => Some p
  | None =>
      match s with
      | String _ s' => exec s'
      | EmptyString => None
      end
  end.

(** ToNumber of a string of decimal digits. *)
Definition ToNumber (s : string) : Z :=
  fold_left (fun acc c => 10 * acc + (Z.of_N (code c) - 48))
    (list_ascii_of_string s) 0.

End RegExp.

(** ** Values and records *)

(** The primitive values a [timestamp] field can hold once the JSON body is
    decoded, together with [undefined] for an absent field. *)
Inductive value : Type :=
| VUndefined
| VNull
| VBoolean (b : bool)
| VNumber (x : spec_float)
| VString (s : string).

Definition ToBoolean (v : value) : bool :=
  match v with
  | VUndefined | VNull => false
  | VBoolean b => b
  | VNumber x => Number.truthy x
  | VString s => negb (String.eqb s "")
  end.

(** One sensor reading.  [timestamp] is a string or absent ([None]). *)
Record Reading : Type := {
  id : Z;
  leitura : spec_float;
  status : string;
  bombaLigada : string;
  timestamp : option string
}.

(** The value read by [r.timestamp]. *)
Definition timestamp_value (r : Reading) : value :=
  match timestamp r with
  | Some s => VString s
  | None => VUndefined
  end.

(** ** Sorting *)

(** [SortCompare]: the comparator's result as a number, NaN read as +0. *)
Definition SortCompare (v : option Z) : Z :=
  match v with
  | Some z => z
  | None => 0
  end.

(** [Array.prototype.sort] is the engine's; it is stable, and determined by
    the language only for a consistent comparator.  The model is the
    insertion sort engines use on short arrays: each element in turn moves
    left past the elements the comparator puts strictly after it.  The
    sorted prefix is kept in reverse, nearest element first. *)
Fixpoint sort_insert {A : Type} (comparefn : A -> A -> completion (option Z))
  (element : A) (before : list A) : completion (list A) :=
  match before with
  | [] => Normal [element]
  | tmp :: rest =>
      order <- comparefn tmp element ;;
      if 0 <? SortCompare order
      then r <- sort_insert comparefn element rest ;; Normal (tmp :: r)
      else Normal (element :: tmp :: rest)
  end.

Definition sort {A : Type} (comparefn : A -> A -> completion (option Z))
  (l : list A) : completion (list A) :=
  before <- reduce_from (fun before element =>
              sort_insert comparefn element before) [] l ;;
  Normal (rev before).

(** ** State and [fetchData] *)

Record State : Type := {
  leituras : list Reading;
  loading : bool;
  initialLoading : bool;
  error : option string;
  lastRefresh : Date
}.

Definition setLeituras (v : list Reading) (s : State) : State :=
  {| leituras := v; loading := loading s; initialLoading := initialLoading s;
     error := error s; lastRefresh := lastRefresh s |}.

Definition setLoading (v : bool) (s : State) : State :=
  {| leituras := leituras s; loading := v; initialLoading := initialLoading s;
     error := error s; lastRefresh := lastRefresh s |}.

Definition setInitialLoading (v : bool) (s : State) : State :=
  {| leituras := leituras s; loading := loading s; initialLoading := v;
     error := error s; lastRefresh := lastRefresh s |}.

Definition setError (v : option string) (s : State) : State :=
  {| leituras := leituras s; loading := loading s;
     initialLoading := initialLoading s; error := v;
     lastRefresh := lastRefresh s |}.

Definition setLastRefresh (v : Date) (s : State) : State :=
  {| leituras := leituras s; loading := loading s;
     initialLoading := initialLoading s; error := error s; lastRefresh := v |}.

(** The state the component starts in, [now] being the time it mounts. *)
Definition initial (now : Date) : State :=
  {| leituras := []; loading := false; initialLoading := true; error := None;
     lastRefresh := now |}.

(** A decoded JSON body: an array of readings, or any other JSON value. *)
Inductive json : Type :=
| JArray (items : list Reading)
| JOther.

(** What [response.json()] settles to. *)
Inductive body : Type :=
| Parsed (j : json)
| Malformed.

(** What [fetch] settles to: a rejection, or a response with its [ok] flag. *)
Inductive outcome : Type :=
| Rejected
| Response (ok : bool) (b : body).

(** The message of the error thrown on a response that is not ok; the
    character 227 is a with tilde. *)
Definition connection_failed : string :=
  ("Falha na conex" ++ String (ascii_of_N 227) "o")%string.

(** The first [then]: a response that is not ok throws, otherwise the body
    is decoded, which fails on a malformed body. *)
Definition decode (o : outcome) : completion json :=
  match o with
  | Rejected => Throw NetworkFailure
  | Response ok b =>
      if negb ok then Throw (Error connection_failed)
      else match b with
           | Parsed j => Normal j
           | Malformed => Throw SyntaxError
           end
  end.

(** The attempt fails: the request is rejected, the response is not ok, or
    its body cannot be decoded. *)
Definition failed (o : outcome) : bool :=
  match decode o with
  | Normal _ => false
  | Throw _ => true
  end.

(** The second [then]. *)
Definition store (now : Date) (data : json) (s : State) : State :=
  setError None
    (setLastRefresh now
       (setLeituras (match data with JArray a => a | JOther => [] end) s)).

(** One run of [fetchData] to completion: [now] is the time the data arrive,
    [o] what the request settles to. *)
Definition fetchData (now : Date) (o : outcome) (s : State) : State :=
  let s := setLoading true s in
  let s :=
    match decode o with
    | Normal data => store now data s
    | Throw _ => setError (Some "Falha ao carregar os dados.") s
    end in
  setInitialLoading false (setLoading false s).

(** ** The polling cycle

    [fetchData] runs in two parts: [setLoading(true)] when it is called (at
    mount, then at every tick of the interval), and the handlers of the
    promise chain when the request settles.  Nothing keeps a tick from
    starting a request while another is in flight, so the two parts of
    different requests interleave, in the order the event loop runs them. *)

(** The part of [fetchData] that runs at the call. *)
Definition begin (s : State) : State := setLoading true s.

(** The part of [fetchData] that runs when the request settles: the second
    [then] or the [catch], and the [finally]. *)
Definition settle (now : Date) (o : outcome) (s : State) : State :=
  let s :=
    match decode o with
    | Normal data => store now data s
    | Throw _ => setError (Some "Falha ao carregar os dados.") s
    end in
  setInitialLoading false (setLoading false s).

(** What the event loop runs: the start of a request, or the handlers of a
    request that settled to [o] at time [now]. *)
Inductive event : Type :=
| Start
| Settle (now : Date) (o : outcome).

Definition step (s : State) (e : event) : State :=
  match e with
  | Start => begin s
  | Settle now o => settle now o s
  end.

(** The state after the events [es], run in order from [s]. *)
Definition run (es : list event) (s : State) : State := fold_left step es s.

(** The outcome of the request that settled last, if one settled. *)
Fixpoint last_settled (es : list event) : option outcome :=
  match es with
  | [] => None
  | e :: es' =>
      match last_settled es' with
      | Some o => Some o
      | None => match e with Settle _ o => Some o | Start => None end
      end
  end.

(** The arrival time and the decoded body of the request that succeeded
    last, if one succeeded. *)
Fixpoint last_stored (es : list event) : option (Date * json) :=
  match es with
  | [] => None
  | e :: es' =>
      match last_stored es' with
      | Some d => Some d
      | None =>
          match e with
          | Settle now o =>
              match decode o with
              | Normal data => Some (now, data)
              | Throw _ => None
              end
          | Start => None
          end
      end
  end.

(** The readings a decoded body holds: its items, none when it is not an
    array. *)
Definition readings_of (data : json) : list Reading :=
  match data with
  | JArray a => a
  | JOther => []
  end.

(** [!initialLoading && leituras.length > 0]: the condition under which the
    chart is rendered. *)
Definition chartVisible (s : State) : bool :=
  negb (initialLoading s) && (0 <? Z.of_nat (List.length (leituras s))).

(** ** A reference host

    One host the program can run on, used to evaluate the program on
    concrete inputs: [Date.parse] reads the ISO form [YYYY-MM-DDTHH:mm:ssZ]
    and nothing else, local time is three hours behind UTC, and a time is shown
    as [HH:MM:SS] on the 24-hour clock. *)

Module Ref.

Import RegExp.

Definition LocalTZA (_ : Z) : Z := -10800000.

Definition days_in_month (leap : bool) (mn : Z) : Z :=
  match mn with
  | 1 => if leap then 29 else 28
  | 3 | 5 | 8 | 10 => 30
  | _ => 31
  end.

Definition iso_fields (y mo d h mi sec : Z) : option Z :=
  if (1 <=? mo) && (mo <=? 12) && (1 <=? d)
     && (d <=? days_in_month (DateTime.InLeapYear y) (mo - 1))
     && (h <=? 23) && (mi <=? 59) && (sec <=? 59)
  then Some (DateTime.MakeDate (DateTime.MakeDay y (mo - 1) d)
               (DateTime.MakeTime h mi sec 0))
  else None.

Definition Date_parse (s : string) : option Z :=
  match digits 4 s with
  | Some (y, s) =>
  match lit "-" s with
  | Some s =>
  match digits 2 s with
  | Some (mo, s) =>
  match lit "-" s with
  | Some s =>
  match digits 2 s with
  | Some (d, s) =>
  match lit "T" s with
  | Some s =>
  match digits 2 s with
  | Some (h, s) =>
  match lit ":" s with
  | Some s =>
  match digits 2 s with
  | Some (mi, s) =>
  match lit ":" s with
  | Some s =>
  match digits 2 s with
  | Some (sec, "Z"%string) =>
      iso_fields (ToNumber y) (ToNumber mo) (ToNumber d)
        (ToNumber h) (ToNumber mi) (ToNumber sec)
  | _ => None end
  | None => None end
  | None => None end
  | None => None end
  | None => None end
  | None => None end
  | None => None end
  | None => None end
  | None => None end
  | None => None end
  | None => None end.

Definition two_digits (n : Z) : string :=
  (Number.digits (n / 10) ++ Number.digits (n mod 10))%string.

Definition toLocaleTimeString (d : Date) : string :=
  match d with
  | None => "Invalid Date"
  | Some t =>
      let ms := (t + LocalTZA t) mod DateTime.msPerDay in
      (two_digits (ms / DateTime.msPerHour) ++ ":" ++
       two_digits (ms / DateTime.msPerMinute mod 60) ++ ":" ++
       two_digits (ms / DateTime.msPerSecond mod 60))%string
  end.

End Ref.

(** ** The average the specification describes

    The arithmetic mean of the [leitura] fields as exact rationals, rounded
    to hundredths (to the nearest one, upward from a half) and shown with two
    fraction digits; it is the reference [averageReading] is compared with. *)

Module Spec.

Definition Q : Type := QArith_base.Q.

(** The rational a finite Number denotes. *)
Definition exact (x : spec_float) : Q :=
  match x with
  | S754_finite s m e =>
      let z := if s then Z.neg m else Z.pos m in
      if 0 <=? e then QArith_base.inject_Z (z * 2 ^ e)
      else QArith_base.Qmake z (Z.to_pos (2 ^ (- e)))
  | _ => QArith_base.inject_Z 0
  end.




End Spec.

(** ** Sample readings *)

Module Sample.

Definition reading (i : Z) (x : spec_float) (pump : string)
  (ts : option string) : Reading :=
  {| id := i; leitura := x; status := "Normal"; bombaLigada := pump;
     timestamp := ts |}.

(** No timestamp, and an empty one. *)
Definition absent : Reading := reading 1 (Number.of_Z 2) "Sim" None.
Definition blank : Reading := reading 2 (Number.of_Z 4) "Nao" (Some "").

(** Timestamps in the day-first pattern and in the ISO form. *)
Definition christmas : Reading :=
  reading 3 (Number.of_Z 7) "Sim" (Some "25/12/2024 14:30:00").
Definition boxing : Reading :=
  reading 4 (Number.of_Z 8) "Nao" (Some "2024-12-26T10:00:00Z").
Definition newyear : Reading :=
  reading 5 (Number.of_Z 9) "Sim" (Some "01/01/2024 08:00:00").


(** Eight readings numbered 11 to 18, in that order. *)
Definition eight : list Reading :=
  map (fun i => reading i (Number.of_Z i) "Sim" None)
    [11; 12; 13; 14; 15; 16; 17; 18].

(** A state that shows two readings, refreshed at time 1000. *)
Definition showing : State :=
  {| leituras := [christmas; boxing]; loading := false;
     initialLoading := false; error := None; lastRefresh := Some 1000 |}.

End Sample.

(** ** The program *)

Section App.

(** [Date.parse]: [None] for NaN.  The language fixes it on the ISO format
    only; on any other string the result is the engine's choice. *)
Variable Date_parse : string -> option Z.

(** The offset of local time from UTC, in ms, at local time [t]. *)
Variable LocalTZA : Z -> Z.

(** [Date.prototype.toLocaleTimeString], locale dependent. *)
Variable toLocaleTimeString : Date -> string.

(** [Number::toString], used by [toFixed] from 10^21 on. *)
Variable Number_toString : spec_float -> string.

Definition UTC (t : Z) : Z := t - LocalTZA t.

(** [new Date(value)]: a string is parsed, anything else is converted to a
    Number; the time value is clipped. *)
Definition Date_of_value (v : value) : Date :=
  match v with
  | VString s =>
      match Date_parse s with
      | Some t => DateTime.TimeClip t
      | None => None
      end
  | VNumber (S754_finite s m e) => DateTime.TimeClip (Number.truncate s m e)
  | VNumber (S754_zero _) => Some 0
  | VNumber _ => None
  | VBoolean b => Some (if b then 1 else 0)
  | VNull => Some 0
  | VUndefined => None
  end.

(** The local time [new Date(year, month, date, hours, minutes, seconds)]
    denotes, on integers: a year in 0..99 means 1900 + year. *)
Definition local_time (year month date hours minutes seconds : Z) : Z :=
  DateTime.MakeDate
    (DateTime.MakeDay
       (if (0 <=? year) && (year <=? 99) then 1900 + year else year)
       month date)
    (DateTime.MakeTime hours minutes seconds 0).

(** [new Date(year, month, date, hours, minutes, seconds)]: the local time
    of the fields, converted to UTC and clipped. *)
Definition Date_of_fields (year month date hours minutes seconds : Z) : Date :=
  DateTime.TimeClip (UTC (local_time year month date hours minutes seconds)).

(** [new Date(parts[3], parts[2] - 1, parts[1], parts[4], parts[5], parts[6])]:
    each group is converted to the number its digits denote. *)
Definition Date_of_parts (p : RegExp.parts) : Date :=
  Date_of_fields
    (RegExp.ToNumber (RegExp.part3 p))
    (RegExp.ToNumber (RegExp.part2 p) - 1)
    (RegExp.ToNumber (RegExp.part1 p))
    (RegExp.ToNumber (RegExp.part4 p))
    (RegExp.ToNumber (RegExp.part5 p))
    (RegExp.ToNumber (RegExp.part6 p)).

(** [timestamp.match(pattern)]: only a String has the method. *)
Definition String_match (v : value) : completion (option RegExp.parts) :=
  match v with
  | VString s => Normal (RegExp.exec s)
  | _ => Throw TypeError
  end.

Definition parseTimestamp (timestamp : value) : completion Date :=
  if negb (ToBoolean timestamp) then Normal InvalidDate
  else
    let date := Date_of_value timestamp in
    if negb (invalid date) then Normal date
    else
      parts <- String_match timestamp ;;
      match parts with
      | Some p =>
          let date := Date_of_parts p in
          if negb (invalid date) then Normal date else Normal InvalidDate
      | None => Normal InvalidDate
      end.

(** The normalized instant of a reading: the Date [parseTimestamp] returns
    on its [timestamp]. *)
Definition instant (r : Reading) : Date :=
  match parseTimestamp (timestamp_value r) with
  | Normal d => d
  | Throw _ => InvalidDate
  end.

(** The callback of the [reduce] in [latestReading]. *)
Definition later (latest current : Reading) : completion Reading :=
  latestDate <- parseTimestamp (timestamp_value latest) ;;
  currentDate <- parseTimestamp (timestamp_value current) ;;
  if invalid latestDate then Normal current
  else if invalid currentDate then Normal latest
  else Normal (if Date_gt currentDate latestDate then current else latest).

(** [reduce] without an initial value starts from the first element. *)
Definition latestReading (leituras : list Reading)
  : completion (option Reading) :=
  match leituras with
  | [] => Normal None
  | first :: rest =>
      latest <- reduce_from later first rest ;; Normal (Some latest)
  end.



(** [latestReading?.bombaLigada === "Sim" ? "Ativa" : "Inativa"] *)
Definition pumpStatus (latestReading : option Reading) : string :=
  match latestReading with
  | Some r => if String.eqb (bombaLigada r) "Sim" then "Ativa" else "Inativa"
  | None => "Inativa"
  end.

(** The label the component shows, from the readings it holds. *)
Definition pumpLabel (leituras : list Reading) : completion string :=
  latest <- latestReading leituras ;; Normal (pumpStatus latest).

Record ChartData : Type := {
  labels : list string;
  data : list spec_float
}.

Definition chartData (leituras : list Reading) : completion ChartData :=
  ls <- mapM (fun dado =>
                d <- parseTimestamp (timestamp_value dado) ;;
                Normal (toLocaleTimeString d))
          (slice (-6) leituras) ;;
  Normal {| labels := ls; data := map leitura (slice (-6) leituras) |}.

(** The comparator of the history list:
    [parseTimestamp(b.timestamp) - parseTimestamp(a.timestamp)]. *)
Definition newest_first (a b : Reading) : completion (option Z) :=
  db <- parseTimestamp (timestamp_value b) ;;
  da <- parseTimestamp (timestamp_value a) ;;
  Normal (Date_sub db da).

(** The [data] of the history list: a sorted copy of the readings. *)
Definition history (leituras : list Reading) : completion (list Reading) :=
  sort newest_first leituras.

(** ** Notions the properties are stated with *)

(** The fields of a match are within the widths of the pattern. *)
Definition fields_in_range (p : RegExp.parts) : Prop :=
  0 <= RegExp.ToNumber (RegExp.part1 p) < 100
  /\ 0 <= RegExp.ToNumber (RegExp.part2 p) < 100
  /\ 0 <= RegExp.ToNumber (RegExp.part3 p) < 10000
  /\ 0 <= RegExp.ToNumber (RegExp.part4 p) < 100
  /\ 0 <= RegExp.ToNumber (RegExp.part5 p) < 100
  /\ 0 <= RegExp.ToNumber (RegExp.part6 p) < 100.

(** Every reading of the list has a valid normalized instant. *)
Definition all_valid (l : list Reading) : Prop :=
  Forall (fun r => invalid (instant r) = false) l.

(** The normalized instants of the list are pairwise distinct. *)
Definition distinct_instants (l : list Reading) : Prop :=
  NoDup (map instant l).

(** Where the insertion puts [element] among the readings before it (nearest
    first): behind those it is strictly newer than. *)
Fixpoint place (element : Reading) (before : list Reading) : list Reading :=
  match before with
  | [] => [element]
  | tmp :: rest =>
      if 0 <? SortCompare (Date_sub (instant element) (instant tmp))
      then tmp :: place element rest
      else element :: tmp :: rest
  end.

(** [a] is at most as recent as [b], both instants being valid. *)
Definition older_or_same (a b : Reading) : Prop :=
  exists ta tb, instant a = Some ta /\ instant b = Some tb /\ ta <= tb.

(** [a] is at least as recent as [b], both instants being valid. *)
Definition newer_or_same (a b : Reading) : Prop := older_or_same b a.

(** The reading has the valid instant [t]. *)
Definition at_instant (t : Z) (r : Reading) : bool :=
  match instant r with
  | Some t' => t' =? t
  | None => false
  end.

(** * Properties *)

(** ** The timestamp normaliser *)

Lemma parseTimestamp_absent :
  parseTimestamp VUndefined = Normal InvalidDate
  /\ parseTimestamp VNull = Normal InvalidDate
  /\ parseTimestamp (VString "") = Normal InvalidDate.
Proof. repeat split. Qed.

Lemma parseTimestamp_string (s : string) :
  exists d, parseTimestamp (VString s) = Normal d.
Proof.
  unfold parseTimestamp.
  destruct (negb (ToBoolean (VString s))); [eauto|].
  destruct (negb (invalid (Date_of_value (VString s)))); [eauto|].
  cbn [String_match bind].
  destruct (RegExp.exec s) as [p|]; [|eauto].
  match goal with |- context [negb ?b] => destruct (negb b) end; eauto.
Qed.

Lemma parseTimestamp_instant (r : Reading) :
  parseTimestamp (timestamp_value r) = Normal (instant r).
Proof.
  unfold instant, timestamp_value.
  destruct (timestamp r) as [s|]; [|reflexivity].
  destruct (parseTimestamp_string s) as [d ->]. reflexivity.
Qed.

(** The digits a group captures denote a number below [10 ^ n]. *)
Lemma digits_fold_bounds (n : nat) :
  forall s d rest acc,
    RegExp.digits n s = Some (d, rest) ->
    0 <= acc ->
    acc * 10 ^ Z.of_nat n
    <= fold_left (fun acc c => 10 * acc + (Z.of_N (RegExp.code c) - 48))
         (list_ascii_of_string d) acc
    < (acc + 1) * 10 ^ Z.of_nat n.
Proof.
  induction n as [|n IH]; intros s d rest acc Hd Hacc.
  - injection Hd as <- _. cbn. lia.
  - cbn [RegExp.digits] in Hd.
    destruct s as [|c s]; [discriminate|].
    destruct (RegExp.is_digit c) eqn:Hc; [|discriminate].
    destruct (RegExp.digits n s) as [[d' rest']|] eqn:Hn; [|discriminate].
    injection Hd as <- <-.
    cbn [list_ascii_of_string fold_left].
    unfold RegExp.is_digit in Hc.
    apply andb_prop in Hc as [Hlo Hhi].
    apply N.leb_le in Hlo, Hhi.
    specialize (IH s d' rest' (10 * acc + (Z.of_N (RegExp.code c) - 48)) Hn).
    rewrite Nat2Z.inj_succ, Z.pow_succ_r by lia.
    assert (0 < 10 ^ Z.of_nat n) by (apply Z.pow_pos_nonneg; lia).
    nia.
Qed.

Lemma digits_ToNumber (n : nat) (s d rest : string) :
  RegExp.digits n s = Some (d, rest) ->
  0 <= RegExp.ToNumber d < 10 ^ Z.of_nat n.
Proof.
  intros Hd. unfold RegExp.ToNumber.
  pose proof (digits_fold_bounds n s d rest 0 Hd). lia.
Qed.

Ltac step_match H :=
  match type of H with
  | RegExp.andThen ?o _ = Some _ =>
      let E := fresh "E" in
      destruct o as [[? ?]|] eqn:E; cbn [RegExp.andThen] in H;
      [|discriminate H]
  | RegExp.andThen ?o _ = Some _ =>
      let E := fresh "E" in
      destruct o eqn:E; cbn [RegExp.andThen] in H; [|discriminate H]
  end.

Lemma match_here_in_range (s : string) (p : RegExp.parts) :
  RegExp.match_here s = Some p -> fields_in_range p.
Proof.
  unfold RegExp.match_here. intros H.
  repeat step_match H.
  injection H as <-. unfold fields_in_range.
  cbn [RegExp.part1 RegExp.part2 RegExp.part3
       RegExp.part4 RegExp.part5 RegExp.part6].
  repeat match goal with
         | E : RegExp.digits _ _ = Some _ |- _ =>
             apply digits_ToNumber in E; cbn in E
         end.
  repeat split; lia.
Qed.

Lemma exec_in_range (s : string) (p : RegExp.parts) :
  RegExp.exec s = Some p -> fields_in_range p.
Proof.
  induction s as [|c s IH]; cbn [RegExp.exec];
    destruct (RegExp.match_here _) as [q|] eqn:Hq; intros H;
    try discriminate.
  - injection H as <-. eapply match_here_in_range; eassumption.
  - auto.
Qed.

Lemma DaysBeforeMonth_bounds (leap : bool) (mn : Z) :
  0 <= DateTime.DaysBeforeMonth leap mn <= 335.
Proof.
  unfold DateTime.DaysBeforeMonth.
  destruct leap, mn as [|q|q]; try lia;
    repeat (destruct q as [q|q|]; try lia).
Qed.

Lemma local_time_bounds (year month date hours minutes seconds : Z) :
  0 <= year < 10000 -> -1 <= month < 99 -> 0 <= date < 100 ->
  0 <= hours < 100 -> 0 <= minutes < 100 -> 0 <= seconds < 100 ->
  Z.abs (local_time year month date hours minutes seconds)
  <= 400000000000000.
Proof.
  intros Hy Hm Hd Hh Hmi Hs.
  unfold local_time, DateTime.MakeDate, DateTime.MakeDay, DateTime.MakeTime,
    DateTime.DayFromYear, DateTime.msPerDay, DateTime.msPerHour,
    DateTime.msPerMinute, DateTime.msPerSecond.
  set (yr := if (0 <=? year) && (year <=? 99) then 1900 + year else year).
  assert (Hyr : 0 <= yr < 10000)
    by (subst yr; destruct ((0 <=? year) && (year <=? 99)) eqn:E; lia).
  clearbody yr.
  pose proof (DaysBeforeMonth_bounds
                (DateTime.InLeapYear (yr + month / 12)) (month mod 12)) as Hb.
  set (dbm := DateTime.DaysBeforeMonth _ _) in *. clearbody dbm.
  Z.div_mod_to_equations. lia.
Qed.

(** In a time zone within a day of UTC, every match of the pattern yields
    a valid Date. *)
Lemma Date_of_fields_valid (year month date hours minutes seconds : Z) :
  (forall t, Z.abs (LocalTZA t) <= DateTime.msPerDay) ->
  0 <= year < 10000 -> -1 <= month < 99 -> 0 <= date < 100 ->
  0 <= hours < 100 -> 0 <= minutes < 100 -> 0 <= seconds < 100 ->
  Date_of_fields year month date hours minutes seconds
  = Some (UTC (local_time year month date hours minutes seconds)).
Proof.
  intros Htz Hy Hm Hd Hh Hmi Hs.
  pose proof (local_time_bounds year month date hours minutes seconds
                Hy Hm Hd Hh Hmi Hs) as Hb.
  unfold Date_of_fields.
  set (t := local_time _ _ _ _ _ _) in *. clearbody t.
  unfold DateTime.TimeClip, UTC.
  specialize (Htz t). unfold DateTime.msPerDay in Htz.
  destruct (Z.abs (t - LocalTZA t) <=? 8640000000000000) eqn:E;
    [reflexivity|].
  apply Z.leb_gt in E. lia.
Qed.


Lemma parseTimestamp_pattern (s : string) :
  Date_of_value (VString s) = None ->
  parseTimestamp (VString s)
  = Normal (match RegExp.exec s with
            | Some p => Date_of_parts p
            | None => InvalidDate
            end).
Proof.
  intros H. unfold parseTimestamp. cbn [ToBoolean].
  destruct (String.eqb s "") eqn:E; cbn [negb].
  - apply String.eqb_eq in E. subst s. reflexivity.
  - rewrite H. cbn [invalid negb String_match bind].
    destruct (RegExp.exec s) as [p|]; [|reflexivity].
    fold (Date_of_parts p). destruct (Date_of_parts p); reflexivity.
Qed.



Lemma parseTimestamp_number_throws :
  parseTimestamp (VNumber (S754_finite false 4503599627370496 948))
  = Throw TypeError.
Proof. reflexivity. Qed.

(** C10. On an absent input ([undefined] or [null]) and on every string,
    [parseTimestamp] returns a Date (the time value of a valid instant or the
    invalid marker) and does not throw. *)
Theorem parseTimestamp_total :
  (exists d : Date, parseTimestamp VUndefined = Normal d)
  /\ (exists d : Date, parseTimestamp VNull = Normal d)
  /\ (forall s : string, exists d : Date, parseTimestamp (VString s) = Normal d).
Proof.
  split; [|split].
  - exists InvalidDate. reflexivity.
  - exists InvalidDate. reflexivity.
  - exact parseTimestamp_string.
Qed.

(** ** The latest reading *)

Lemma later_instant (latest current : Reading) :
  later latest current
  = Normal (if invalid (instant latest) then current
            else if invalid (instant current) then latest
            else if Date_gt (instant current) (instant latest) then current
            else latest).
Proof.
  unfold later. rewrite !parseTimestamp_instant. cbn [bind].
  destruct (invalid (instant latest)); [reflexivity|].
  destruct (invalid (instant current)); reflexivity.
Qed.

Lemma later_of_invalid (latest current : Reading) :
  instant latest = InvalidDate -> later latest current = Normal current.
Proof. intros H. rewrite later_instant, H. reflexivity. Qed.

Lemma later_of_valid (latest current : Reading) (tl : Z) :
  instant latest = Some tl ->
  later latest current
  = Normal (match instant current with
            | Some tc => if tl <? tc then current else latest
            | None => latest
            end).
Proof.
  intros H. rewrite later_instant, H. cbn [invalid].
  destruct (instant current); reflexivity.
Qed.

Lemma last_cons {A : Type} (a d : A) (l : list A) :
  last (a :: l) d = last l a.
Proof.
  revert a d. induction l as [|b l IH]; intros a d; [reflexivity|].
  change (last (a :: b :: l) d) with (last (b :: l) d).
  rewrite !IH. reflexivity.
Qed.

Lemma reduce_later_invalid (rest : list Reading) :
  forall first,
    Forall (fun r => instant r = InvalidDate) (first :: rest) ->
    reduce_from later first rest = Normal (last rest first).
Proof.
  induction rest as [|a rest IH]; intros first H; [reflexivity|].
  inversion H as [|? ? Hfirst Hrest]; subst.
  cbn [reduce_from]. rewrite (later_of_invalid _ _ Hfirst). cbn [bind].
  rewrite (IH a Hrest), last_cons. reflexivity.
Qed.

(** C1, as the program has it. When every reading of a non-empty list has an
    invalid normalized instant, [latestReading] returns the last element of
    the list: a latest whose instant is invalid gives way to each candidate. *)
Theorem latestReading_all_invalid (first : Reading) (rest : list Reading) :
  Forall (fun r => instant r = InvalidDate) (first :: rest) ->
  latestReading (first :: rest) = Normal (Some (last rest first)).
Proof.
  intros H. cbn [latestReading].
  rewrite (reduce_later_invalid rest first H). reflexivity.
Qed.

Lemma valid_instant (r : Reading) :
  invalid (instant r) = false -> exists t, instant r = Some t.
Proof. destruct (instant r) as [t|]; [eauto|discriminate]. Qed.

Lemma reduce_later_greatest (rest : list Reading) :
  forall first tf,
    instant first = Some tf ->
    all_valid rest ->
    exists r tr,
      reduce_from later first rest = Normal r
      /\ In r (first :: rest)
      /\ instant r = Some tr
      /\ tf <= tr
      /\ (forall r' t', In r' rest -> instant r' = Some t' -> t' <= tr).
Proof.
  induction rest as [|a rest IH]; intros first tf Hf Hv.
  - exists first, tf. cbn. repeat split; auto; try lia; contradiction.
  - inversion Hv as [|? ? Ha Hrest]; subst.
    destruct (valid_instant a Ha) as [ta Hta].
    cbn [reduce_from]. rewrite (later_of_valid first a tf Hf), Hta.
    cbn [bind].
    destruct (tf <? ta) eqn:E;
      [apply Z.ltb_lt in E | apply Z.ltb_ge in E].
    + destruct (IH a ta Hta Hrest) as (r & tr & Hr & Hin & Hi & Hle & Hmax).
      exists r, tr. repeat split; auto; try lia.
      * right. exact Hin.
      * intros r' t' [<-|Hin'] Hi'; [|eauto].
        rewrite Hta in Hi'. injection Hi' as <-. exact Hle.
    + destruct (IH first tf Hf Hrest) as (r & tr & Hr & Hin & Hi & Hle & Hmax).
      exists r, tr. repeat split; auto.
      * destruct Hin as [<-|Hin]; [left; reflexivity|right; right; exact Hin].
      * intros r' t' [<-|Hin'] Hi'; [|eauto].
        rewrite Hta in Hi'. injection Hi' as <-. lia.
Qed.

Lemma latestReading_maximal (l : list Reading) :
  l <> [] -> all_valid l ->
  exists r t,
    latestReading l = Normal (Some r)
    /\ In r l
    /\ instant r = Some t
    /\ (forall r' t', In r' l -> instant r' = Some t' -> t' <= t).
Proof.
  destruct l as [|first rest]; [contradiction|]. intros _ Hv.
  inversion Hv as [|? ? Hf Hrest]; subst.
  destruct (valid_instant first Hf) as [tf Htf].
  destruct (reduce_later_greatest rest first tf Htf Hrest)
    as (r & tr & Hr & Hin & Hi & Hle & Hmax).
  exists r, tr. cbn [latestReading]. rewrite Hr. repeat split; auto.
  intros r' t' [<-|Hin'] Hi'; [|eauto].
  rewrite Htf in Hi'. injection Hi' as <-. exact Hle.
Qed.

Lemma NoDup_map_injective {A B : Type} (f : A -> B) (l : list A) (x y : A) :
  NoDup (map f l) -> In x l -> In y l -> f x = f y -> x = y.
Proof.
  induction l as [|a l IH]; cbn [map]; intros Hnd Hx Hy Hxy; [contradiction|].
  inversion Hnd as [|? ? Hnotin Hnd']; subst.
  destruct Hx as [<-|Hx], Hy as [<-|Hy]; auto.
  - exfalso. apply Hnotin. rewrite Hxy. apply in_map. exact Hy.
  - exfalso. apply Hnotin. rewrite <- Hxy. apply in_map. exact Hx.
Qed.

(** C2, as the program has it. On a non-empty list whose instants are all
    valid and pairwise distinct, [latestReading] returns the reading whose
    instant is greater than that of every other reading, and it returns the
    same reading on every permutation of the list.  In the fold, a latest
    whose instant is valid is replaced by the candidate exactly when the
    candidate's instant is valid and strictly greater (so an invalid candidate
    never replaces it), and a latest whose instant is invalid is replaced by
    every candidate. *)
Theorem latestReading_greatest :
  (forall l,
      l <> [] -> all_valid l -> distinct_instants l ->
      exists r t,
        latestReading l = Normal (Some r)
        /\ In r l
        /\ instant r = Some t
        /\ (forall r', In r' l -> r' <> r ->
                  exists t', instant r' = Some t' /\ t' < t))
  /\ (forall l l',
        all_valid l -> distinct_instants l -> Permutation l l' ->
        latestReading l' = latestReading l)
  /\ (forall latest current tl,
        instant latest = Some tl ->
        later latest current
        = Normal (match instant current with
                  | Some tc => if tl <? tc then current else latest
                  | None => latest
                  end))
  /\ (forall latest current,
        instant latest = InvalidDate -> later latest current = Normal current).
Proof.
  split; [|split; [|split]].
  - intros l Hne Hv Hd.
    destruct (latestReading_maximal l Hne Hv) as (r & t & Hr & Hin & Hi & Hmax).
    exists r, t. repeat split; auto.
    intros r' Hin' Hneq.
    destruct (valid_instant r') as [t' Ht'].
    { unfold all_valid in Hv. rewrite Forall_forall in Hv. auto. }
    exists t'. split; [exact Ht'|].
    specialize (Hmax r' t' Hin' Ht').
    destruct (Z.eq_dec t' t) as [->|]; [|lia].
    exfalso. apply Hneq.
    apply (NoDup_map_injective instant l r' r Hd Hin' Hin). congruence.
  - intros l l' Hv Hd Hp.
    destruct l as [|a l].
    { apply Permutation_nil in Hp. subst l'. reflexivity. }
    assert (Hne : a :: l <> []) by discriminate.
    assert (Hne' : l' <> []).
    { intros ->. apply Permutation_sym, Permutation_nil in Hp. discriminate. }
    assert (Hv' : all_valid l').
    { unfold all_valid in *. eapply Permutation_Forall; eassumption. }
    destruct (latestReading_maximal _ Hne Hv) as (r & t & Hr & Hin & Hi & Hmax).
    destruct (latestReading_maximal _ Hne' Hv')
      as (r' & t' & Hr' & Hin' & Hi' & Hmax').
    rewrite Hr, Hr'. do 2 f_equal.
    apply Permutation_sym in Hp.
    pose proof (Permutation_in _ Hp Hin') as Hin2.
    pose proof (Permutation_in _ (Permutation_sym Hp) Hin) as Hin3.
    apply (NoDup_map_injective instant (a :: l) r' r Hd Hin2 Hin).
    specialize (Hmax r' t' Hin2 Hi'). specialize (Hmax' r t Hin3 Hi).
    rewrite Hi, Hi'. f_equal. lia.
  - exact later_of_valid.
  - exact later_of_invalid.
Qed.

Lemma reduce_later_normal (rest : list Reading) :
  forall first, exists r, reduce_from later first rest = Normal r.
Proof.
  induction rest as [|a rest IH]; intros first; [eexists; reflexivity|].
  cbn [reduce_from]. rewrite later_instant. cbn [bind]. apply IH.
Qed.

Lemma latestReading_normal (l : list Reading) :
  exists o, latestReading l = Normal o /\ (o = None <-> l = []).
Proof.
  destruct l as [|first rest].
  - exists None. repeat split.
  - destruct (reduce_later_normal rest first) as [r Hr].
    exists (Some r). cbn [latestReading]. rewrite Hr.
    repeat split; discriminate.
Qed.

(** ** The pump status *)

(** C8. With no readings there is no latest reading and the label is
    "Inativa"; the label is "Ativa" exactly when there is a latest reading
    and its [bombaLigada] is "Sim", and it is "Inativa" otherwise. *)
Theorem pumpStatus_labels :
  latestReading [] = Normal None
  /\ pumpLabel [] = Normal "Inativa"
  /\ (forall l,
        pumpLabel l = Normal "Ativa"
        <-> exists r, latestReading l = Normal (Some r)
                      /\ bombaLigada r = "Sim")
  /\ (forall l, pumpLabel l = Normal "Ativa" \/ pumpLabel l = Normal "Inativa").
Proof.
  split; [reflexivity|]. split; [reflexivity|]. split.
  - intros l. unfold pumpLabel.
    destruct (latestReading_normal l) as (o & -> & _). cbn [bind].
    split.
    + destruct o as [r|]; cbn [pumpStatus]; [|discriminate].
      destruct (String.eqb (bombaLigada r) "Sim") eqn:E; [|discriminate].
      intros _. exists r. split; [reflexivity|]. apply String.eqb_eq, E.
    + intros (r & Hr & Hb). injection Hr as ->. cbn [pumpStatus].
      rewrite Hb. reflexivity.
  - intros l. unfold pumpLabel.
    destruct (latestReading_normal l) as (o & -> & _). cbn [bind].
    destruct o as [r|]; cbn [pumpStatus]; [|right; reflexivity].
    destruct (String.eqb (bombaLigada r) "Sim"); [left|right]; reflexivity.
Qed.

(** ** The chart window *)

Lemma slice_last_six {A : Type} (l : list A) :
  slice (-6) l = skipn (List.length l - 6) l.
Proof.
  unfold slice. cbn [Z.ltb Z.compare]. f_equal. lia.
Qed.

Lemma mapM_labels (l : list Reading) :
  mapM (fun dado =>
          d <- parseTimestamp (timestamp_value dado) ;;
          Normal (toLocaleTimeString d)) l
  = Normal (map (fun dado => toLocaleTimeString (instant dado)) l).
Proof.
  induction l as [|a l IH]; [reflexivity|].
  cbn [mapM map]. rewrite parseTimestamp_instant. cbn [bind].
  rewrite IH. reflexivity.
Qed.

(** C5. The chart takes the last [min 6 (length leituras)] readings, in the
    order of the list: one label (the time of day of the normalized instant)
    and one value (the [leitura]) for each, so never more than 6 of either. *)
Theorem chartData_window (leituras : list Reading) :
  exists before window,
    leituras = before ++ window
    /\ List.length window = Nat.min 6 (List.length leituras)
    /\ chartData leituras
       = Normal {| labels := map (fun dado => toLocaleTimeString (instant dado))
                               window;
                   data := map leitura window |}
    /\ (List.length window <= 6)%nat.
Proof.
  exists (firstn (List.length leituras - 6) leituras),
         (skipn (List.length leituras - 6) leituras).
  assert (Hlen : List.length (skipn (List.length leituras - 6) leituras)
                 = Nat.min 6 (List.length leituras))
    by (rewrite length_skipn; lia).
  split; [symmetry; apply firstn_skipn|].
  split; [exact Hlen|].
  split; [|lia].
  unfold chartData. rewrite slice_last_six, mapM_labels. reflexivity.
Qed.

(** ** The history list *)

Lemma newest_first_instant (a b : Reading) :
  newest_first a b = Normal (Date_sub (instant b) (instant a)).
Proof. unfold newest_first. rewrite !parseTimestamp_instant. reflexivity. Qed.

Lemma sort_insert_place (element : Reading) (before : list Reading) :
  sort_insert newest_first element before = Normal (place element before).
Proof.
  induction before as [|tmp rest IH]; [reflexivity|].
  cbn [sort_insert place]. rewrite newest_first_instant. cbn [bind].
  destruct (0 <? SortCompare (Date_sub (instant element) (instant tmp)));
    [|reflexivity].
  rewrite IH. reflexivity.
Qed.

Lemma insertion_loop (l : list Reading) :
  forall before,
    reduce_from (fun before element => sort_insert newest_first element before)
      before l
    = Normal (fold_left (fun before element => place element before) l before).
Proof.
  induction l as [|a l IH]; intros before; [reflexivity|].
  cbn [reduce_from fold_left]. rewrite sort_insert_place. cbn [bind].
  apply IH.
Qed.

Lemma history_placed (l : list Reading) :
  history l
  = Normal (rev (fold_left (fun before element => place element before) l [])).
Proof. unfold history, sort. rewrite insertion_loop. reflexivity. Qed.

Lemma place_Permutation (element : Reading) (before : list Reading) :
  Permutation (element :: before) (place element before).
Proof.
  induction before as [|tmp rest IH]; cbn [place]; [reflexivity|].
  destruct (0 <? _); [|reflexivity].
  rewrite perm_swap. apply perm_skip, IH.
Qed.

Lemma fold_place_Permutation (l : list Reading) :
  forall before,
    Permutation (rev before ++ l)
      (rev (fold_left (fun before element => place element before) l before)).
Proof.
  induction l as [|a l IH]; intros before; cbn [fold_left].
  - rewrite app_nil_r. reflexivity.
  - etransitivity; [|apply IH].
    replace (rev before ++ a :: l) with ((rev before ++ [a]) ++ l)
      by (rewrite <- app_assoc; reflexivity).
    apply Permutation_app_tail.
    etransitivity; [|apply Permutation_rev].
    etransitivity; [|apply place_Permutation].
    etransitivity;
      [apply Permutation_app_tail; symmetry; apply Permutation_rev|].
    symmetry. apply Permutation_cons_append.
Qed.

(** The history is the readings in another order, and computing it does not
    throw. *)
Lemma history_Permutation (l : list Reading) :
  exists h, history l = Normal h /\ Permutation l h.
Proof.
  eexists. split; [apply history_placed|].
  apply (fold_place_Permutation l []).
Qed.

Lemma place_sorted (element : Reading) (before : list Reading) :
  all_valid (element :: before) ->
  StronglySorted older_or_same before ->
  StronglySorted older_or_same (place element before).
Proof.
  intros Hv. inversion Hv as [|? ? He Hb]; subst. clear Hv.
  destruct (valid_instant element He) as [te Hte].
  induction before as [|tmp rest IH]; intros Hs; cbn [place].
  - repeat constructor.
  - inversion Hb as [|? ? Htmp Hrest]; subst.
    inversion Hs as [|? ? Hs' Hall]; subst.
    destruct (valid_instant tmp Htmp) as [tt Htt].
    rewrite Hte, Htt. cbn [Date_sub SortCompare].
    destruct (0 <? te - tt) eqn:E;
      [apply Z.ltb_lt in E | apply Z.ltb_ge in E].
    + constructor; [apply IH; assumption|].
      eapply Permutation_Forall; [apply place_Permutation|].
      constructor; [|exact Hall].
      exists tt, te. repeat split; auto; lia.
    + constructor; [exact Hs|].
      constructor; [exists te, tt; repeat split; auto; lia|].
      rewrite Forall_forall in Hall |- *. intros y Hy.
      destruct (Hall y Hy) as (t1 & t2 & H1 & H2 & Hle).
      rewrite Htt in H1. injection H1 as <-.
      exists te, t2. repeat split; auto; lia.
Qed.

Lemma fold_place_sorted (l : list Reading) :
  forall before,
    all_valid before -> all_valid l ->
    StronglySorted older_or_same before ->
    StronglySorted older_or_same
      (fold_left (fun before element => place element before) l before).
Proof.
  induction l as [|a l IH]; intros before Hb Hl Hs; [exact Hs|].
  inversion Hl as [|? ? Ha Hl']; subst. cbn [fold_left].
  apply IH; auto.
  - unfold all_valid. eapply Permutation_Forall; [apply place_Permutation|].
    constructor; assumption.
  - apply place_sorted; [constructor|]; assumption.
Qed.

Lemma StronglySorted_rev {A : Type} (R : A -> A -> Prop) (l : list A) :
  StronglySorted R l -> StronglySorted (fun a b => R b a) (rev l).
Proof.
  induction 1 as [|a l Hs IH Hall]; cbn [rev]; [constructor|].
  induction (rev l) as [|b k IHk] eqn:E in IH, Hall, l, Hs |- *.
  - repeat constructor.
  - assert (Hin : forall y, In y (b :: k) -> R a y).
    { intros y Hy. rewrite Forall_forall in Hall. apply Hall.
      apply in_rev. rewrite E. exact Hy. }
    clear E Hall Hs IHk.
    induction (b :: k) as [|c m IHm] in IH, Hin |- *; [repeat constructor|].
    inversion IH as [|? ? Hm Hc]; subst. cbn [app].
    constructor.
    + apply IHm; [exact Hm|]. intros y Hy. apply Hin. right. exact Hy.
    + apply Forall_app. split; [exact Hc|].
      constructor; [|constructor]. apply Hin. left. reflexivity.
Qed.

(** The comparator yields NaN as soon as one instant is invalid, and the
    sort reads NaN as "equal": two such readings keep their order. *)
Lemma history_pair_invalid (a b : Reading) :
  instant a = InvalidDate \/ instant b = InvalidDate ->
  history [a; b] = Normal [a; b].
Proof.
  intros H. rewrite history_placed. cbn [fold_left place].
  assert (E : Date_sub (instant b) (instant a) = None)
    by (destruct H as [-> | ->]; [destruct (instant b)|]; reflexivity).
  rewrite E. reflexivity.
Qed.

(** When every reading has a valid instant, the history is the readings
    sorted from the most recent to the oldest. *)
Lemma history_sorted_valid (l : list Reading) :
  all_valid l ->
  exists h,
    history l = Normal h
    /\ Permutation l h
    /\ StronglySorted newer_or_same h
    /\ Sorted newer_or_same h.
Proof.
  intros Hv.
  destruct (history_Permutation l) as (h & Hh & Hp).
  exists h. split; [exact Hh|]. split; [exact Hp|].
  assert (Hs : StronglySorted newer_or_same h).
  { rewrite history_placed in Hh. injection Hh as <-.
    apply (StronglySorted_rev older_or_same).
    apply fold_place_sorted; auto; constructor. }
  split; [exact Hs|]. apply StronglySorted_Sorted, Hs.
Qed.

(** ** The average *)



(** ** More on the latest reading *)

(** From a latest with a valid instant, the fold ends on the latest itself
    when no later reading is more recent, and otherwise on the first reading
    that reaches the greatest valid instant. *)
Lemma reduce_later_from_valid (rest : list Reading) :
  forall acc ta,
    instant acc = Some ta ->
    exists r tr,
      reduce_from later acc rest = Normal r
      /\ instant r = Some tr
      /\ ((r = acc
           /\ forall x tx, In x rest -> instant x = Some tx -> tx <= ta)
          \/ (exists pre post,
                 rest = pre ++ r :: post
                 /\ ta < tr
                 /\ (forall x tx, In x pre -> instant x = Some tx -> tx < tr)
                 /\ (forall x tx,
                        In x post -> instant x = Some tx -> tx <= tr))).
Proof.
  induction rest as [|a rest IH]; intros acc ta Hacc.
  - exists acc, ta. cbn. repeat split; auto. left. split; [reflexivity|].
    intros x tx [].
  - cbn [reduce_from]. rewrite (later_of_valid acc a ta Hacc).
    destruct (instant a) as [t'|] eqn:Ha; cbn [bind].
    + destruct (ta <? t') eqn:E;
        [apply Z.ltb_lt in E | apply Z.ltb_ge in E].
      * destruct (IH a t' Ha) as (r & tr & Hr & Hi & Hcase).
        exists r, tr. split; [exact Hr|]. split; [exact Hi|]. right.
        destruct Hcase as [[-> Hle] | (pre & post & -> & Hlt & Hpre & Hpost)].
        -- exists [], rest. rewrite Hi in Ha. injection Ha as ->.
           repeat split; auto. intros x tx [].
        -- exists (a :: pre), post. repeat split; auto; try lia.
           intros x tx [<-|Hin] Hx; [|eauto].
           rewrite Ha in Hx. injection Hx as <-. exact Hlt.
      * destruct (IH acc ta Hacc) as (r & tr & Hr & Hi & Hcase).
        exists r, tr. split; [exact Hr|]. split; [exact Hi|].
        destruct Hcase as [[-> Hle] | (pre & post & -> & Hlt & Hpre & Hpost)].
        -- left. split; [reflexivity|].
           intros x tx [<-|Hin] Hx; [|eauto].
           rewrite Ha in Hx. injection Hx as <-. exact E.
        -- right. exists (a :: pre), post. repeat split; auto.
           intros x tx [<-|Hin] Hx; [|eauto].
           rewrite Ha in Hx. injection Hx as <-. lia.
    + destruct (IH acc ta Hacc) as (r & tr & Hr & Hi & Hcase).
      exists r, tr. split; [exact Hr|]. split; [exact Hi|].
      destruct Hcase as [[-> Hle] | (pre & post & -> & Hlt & Hpre & Hpost)].
      * left. split; [reflexivity|].
        intros x tx [<-|Hin] Hx; [congruence|eauto].
      * right. exists (a :: pre), post. repeat split; auto.
        intros x tx [<-|Hin] Hx; [congruence|eauto].
Qed.

(** Whatever the first element, the fold over a list that holds a valid
    instant ends on the first reading that reaches the greatest one. *)
Lemma reduce_later_first_greatest (rest : list Reading) :
  forall acc,
    (exists x, In x (acc :: rest) /\ invalid (instant x) = false) ->
    exists pre r post t,
      acc :: rest = pre ++ r :: post
      /\ reduce_from later acc rest = Normal r
      /\ instant r = Some t
      /\ (forall x tx, In x pre -> instant x = Some tx -> tx < t)
      /\ (forall x tx, In x post -> instant x = Some tx -> tx <= t).
Proof.
  induction rest as [|a rest IH]; intros acc (v & Hv & Hvalid).
  - destruct Hv as [<-|[]].
    destruct (valid_instant acc Hvalid) as [t Ht].
    exists [], acc, [], t. cbn. repeat split; auto; intros x tx [].
  - destruct (instant acc) as [ta|] eqn:Hacc.
    + destruct (reduce_later_from_valid (a :: rest) acc ta Hacc)
        as (r & tr & Hr & Hi & Hcase).
      destruct Hcase as [[-> Hle] | (pre & post & Heq & Hlt & Hpre & Hpost)].
      * exists [], acc, (a :: rest), ta.
        rewrite Hacc in Hi. injection Hi as <-.
        repeat split; auto. intros x tx [].
      * exists (acc :: pre), r, post, tr.
        split; [rewrite Heq; reflexivity|].
        repeat split; auto.
        intros x tx [<-|Hin] Hx; [|eauto]. rewrite Hacc in Hx.
        injection Hx as <-. exact Hlt.
    + cbn [reduce_from]. rewrite (later_of_invalid acc a Hacc). cbn [bind].
      destruct (IH a) as (pre & r & post & t & Heq & Hr & Hi & Hpre & Hpost).
      { exists v. split; [|exact Hvalid].
        destruct Hv as [<-|Hv]; [|exact Hv].
        rewrite Hacc in Hvalid. discriminate. }
      exists (acc :: pre), r, post, t.
      split; [rewrite Heq; reflexivity|].
      repeat split; auto.
      intros x tx [<-|Hin] Hx; [congruence|eauto].
Qed.

(** X1. [latestReading] returns an element of a non-empty list; when some
    reading has a valid instant, it returns the first reading of the list that
    reaches the greatest valid instant: readings with an invalid instant are
    passed over, and of two readings with the same instant the earlier one is
    kept. *)
Theorem latestReading_first_greatest (l : list Reading) :
  (l <> [] -> exists r, latestReading l = Normal (Some r) /\ In r l)
  /\ ((exists x, In x l /\ invalid (instant x) = false) ->
      exists pre r post t,
        l = pre ++ r :: post
        /\ latestReading l = Normal (Some r)
        /\ instant r = Some t
        /\ (forall x tx, In x pre -> instant x = Some tx -> tx < t)
        /\ (forall x tx, In x post -> instant x = Some tx -> tx <= t)).
Proof.
  split.
  - destruct l as [|first rest]; [contradiction|]. intros _.
    cbn [latestReading].
    assert (H : forall rest acc,
               exists r, reduce_from later acc rest = Normal r
                         /\ In r (acc :: rest)).
    { clear. induction rest as [|a rest IH]; intros acc.
      - exists acc. split; [reflexivity|left; reflexivity].
      - cbn [reduce_from]. rewrite later_instant. cbn [bind].
        match goal with
        | |- context [reduce_from later ?c rest] =>
            destruct (IH c) as (r & Hr & Hin)
        end.
        exists r. split; [exact Hr|].
        destruct Hin as [<-|Hin]; [|right; right; exact Hin].
        destruct (invalid (instant acc)); [right; left; reflexivity|].
        destruct (invalid (instant a)); [left; reflexivity|].
        destruct (Date_gt (instant a) (instant acc));
          [right; left|left]; reflexivity. }
    destruct (H rest first) as (r & Hr & Hin).
    exists r. rewrite Hr. split; [reflexivity|exact Hin].
  - intros Hex. destruct l as [|first rest].
    { destruct Hex as (x & [] & _). }
    destruct (reduce_later_first_greatest rest first Hex)
      as (pre & r & post & t & Heq & Hr & Hi & Hpre & Hpost).
    exists pre, r, post, t. cbn [latestReading]. rewrite Hr.
    repeat split; auto.
Qed.

(** X13. As long as one reading has a valid instant, the instant of the
    reading [latestReading] returns does not depend on the order of the list:
    it is the greatest valid instant.  (The reading itself can differ between
    two orders when several readings share that instant.) *)
Theorem latestReading_instant_order (l l' : list Reading) :
  Permutation l l' ->
  (exists x, In x l /\ invalid (instant x) = false) ->
  exists r r' t,
    latestReading l = Normal (Some r)
    /\ latestReading l' = Normal (Some r')
    /\ instant r = Some t
    /\ instant r' = Some t
    /\ (forall x tx, In x l -> instant x = Some tx -> tx <= t).
Proof.
  intros Hp Hex.
  assert (Hex' : exists x, In x l' /\ invalid (instant x) = false).
  { destruct Hex as (x & Hin & Hx). exists x. split; [|exact Hx].
    eapply Permutation_in; eassumption. }
  assert (Hmax : forall k,
             (exists x, In x k /\ invalid (instant x) = false) ->
             exists r t,
               latestReading k = Normal (Some r)
               /\ In r k
               /\ instant r = Some t
               /\ (forall x tx, In x k -> instant x = Some tx -> tx <= t)).
  { clear. intros k Hk. destruct k as [|first rest].
    { destruct Hk as (x & [] & _). }
    destruct (reduce_later_first_greatest rest first Hk)
      as (pre & r & post & t & Heq & Hr & Hi & Hpre & Hpost).
    exists r, t. cbn [latestReading]. rewrite Hr, Heq.
    repeat split; auto.
    - apply in_or_app. right. left. reflexivity.
    - intros x tx Hin Hx. apply in_app_or in Hin.
      destruct Hin as [Hin|[<-|Hin]].
      + pose proof (Hpre x tx Hin Hx). lia.
      + rewrite Hi in Hx. injection Hx as <-. lia.
      + exact (Hpost x tx Hin Hx). }
  destruct (Hmax l Hex) as (r & t & Hr & Hin & Hi & Hall).
  destruct (Hmax l' Hex') as (r' & t' & Hr' & Hin' & Hi' & Hall').
  exists r, r', t. repeat split; auto.
  rewrite Hi'. f_equal.
  pose proof (Hall r' t' (Permutation_in _ (Permutation_sym Hp) Hin') Hi').
  pose proof (Hall' r t (Permutation_in _ Hp Hin) Hi).
  lia.
Qed.

(** ** More on the timestamp normaliser *)


Lemma TimeClip_bound (x t : Z) :
  DateTime.TimeClip x = Some t -> Z.abs t <= 8640000000000000.
Proof.
  unfold DateTime.TimeClip.
  destruct (Z.abs x <=? 8640000000000000) eqn:E; [|discriminate].
  intros H. injection H as <-. apply Z.leb_le, E.
Qed.

Lemma Date_of_value_bound (v : value) (t : Z) :
  Date_of_value v = Some t -> Z.abs t <= 8640000000000000.
Proof.
  destruct v as [| |b|x|s]; cbn [Date_of_value]; intros H.
  - discriminate.
  - injection H as <-. cbn. lia.
  - injection H as <-. destruct b; cbn; lia.
  - destruct x as [s0|s0| |s0 m e]; try discriminate.
    + injection H as <-. cbn. lia.
    + eapply TimeClip_bound, H.
  - destruct (Date_parse s) as [x|]; [|discriminate].
    eapply TimeClip_bound, H.
Qed.

(** X3. Every valid Date [parseTimestamp] returns, on any value and on any
    host, holds a time value within 8.64e15 ms of the epoch: both the direct
    parse and the pattern go through the clipping of the Date constructor. *)
Theorem parseTimestamp_in_range (v : value) (t : Z) :
  parseTimestamp v = Normal (Some t) -> Z.abs t <= 8640000000000000.
Proof.
  unfold parseTimestamp.
  destruct (negb (ToBoolean v)); [discriminate|].
  destruct (Date_of_value v) as [t0|] eqn:Hd; cbn [invalid negb].
  - intros H. injection H as <-. eapply Date_of_value_bound, Hd.
  - destruct (String_match v) as [[p|]|]; cbn [bind]; try discriminate.
    destruct (Date_of_parts p) as [t1|] eqn:Hp; cbn [invalid negb];
      [|discriminate].
    intros H. injection H as <-.
    unfold Date_of_parts, Date_of_fields in Hp. eapply TimeClip_bound, Hp.
Qed.

(** The numbers the groups of a match denote, in the order of the
    constructor's arguments. *)
Lemma parseTimestamp_by_fields (s s' : string) (p p' : RegExp.parts) :
  Date_of_value (VString s) = None ->
  Date_of_value (VString s') = None ->
  RegExp.exec s = Some p ->
  RegExp.exec s' = Some p' ->
  Date_of_parts p = Date_of_parts p' ->
  parseTimestamp (VString s) = parseTimestamp (VString s').
Proof.
  intros Hd Hd' Hp Hp' Heq.
  rewrite (parseTimestamp_pattern s Hd), (parseTimestamp_pattern s' Hd').
  rewrite Hp, Hp', Heq. reflexivity.
Qed.

(** X4. The pattern path reads a year group below 100 as a year of the
    twentieth century: when the direct parse rejects both strings, a
    timestamp whose year group denotes [y <= 99] is the same Date as the
    timestamp with the year [1900 + y] and the same other fields. *)
Theorem parseTimestamp_short_year (s s' : string) (p p' : RegExp.parts) :
  Date_of_value (VString s) = None ->
  Date_of_value (VString s') = None ->
  RegExp.exec s = Some p ->
  RegExp.exec s' = Some p' ->
  RegExp.ToNumber (RegExp.part3 p) <= 99 ->
  RegExp.ToNumber (RegExp.part3 p') = 1900 + RegExp.ToNumber (RegExp.part3 p) ->
  RegExp.part1 p' = RegExp.part1 p ->
  RegExp.part2 p' = RegExp.part2 p ->
  RegExp.part4 p' = RegExp.part4 p ->
  RegExp.part5 p' = RegExp.part5 p ->
  RegExp.part6 p' = RegExp.part6 p ->
  parseTimestamp (VString s) = parseTimestamp (VString s').
Proof.
  intros Hd Hd' Hp Hp' Hy Hy' H1 H2 H4 H5 H6.
  apply (parseTimestamp_by_fields s s' p p' Hd Hd' Hp Hp').
  destruct (exec_in_range s p Hp) as (_ & _ & Hr & _).
  unfold Date_of_parts, Date_of_fields, local_time.
  rewrite Hy', H1, H2, H4, H5, H6.
  set (y := RegExp.ToNumber (RegExp.part3 p)) in *.
  replace ((0 <=? y) && (y <=? 99)) with true by (symmetry; lia).
  replace ((0 <=? 1900 + y) && (1900 + y <=? 99)) with false
    by (symmetry; lia).
  reflexivity.
Qed.

(** X5. The pattern path does not check the range of the time of day: when
    the direct parse rejects both strings, a timestamp whose hour group
    denotes [h + 24] is the same Date as the timestamp of the following day
    with the hour [h] and the same other fields. *)
Theorem parseTimestamp_hour_carry (s s' : string) (p p' : RegExp.parts) :
  Date_of_value (VString s) = None ->
  Date_of_value (VString s') = None ->
  RegExp.exec s = Some p ->
  RegExp.exec s' = Some p' ->
  RegExp.ToNumber (RegExp.part4 p) = RegExp.ToNumber (RegExp.part4 p') + 24 ->
  RegExp.ToNumber (RegExp.part1 p') = RegExp.ToNumber (RegExp.part1 p) + 1 ->
  RegExp.part2 p' = RegExp.part2 p ->
  RegExp.part3 p' = RegExp.part3 p ->
  RegExp.part5 p' = RegExp.part5 p ->
  RegExp.part6 p' = RegExp.part6 p ->
  parseTimestamp (VString s) = parseTimestamp (VString s').
Proof.
  intros Hd Hd' Hp Hp' Hh Hday H2 H3 H5 H6.
  apply (parseTimestamp_by_fields s s' p p' Hd Hd' Hp Hp').
  unfold Date_of_parts, Date_of_fields, local_time.
  rewrite Hh, Hday, H2, H3, H5, H6. do 2 f_equal.
  unfold DateTime.MakeDate, DateTime.MakeDay, DateTime.MakeTime,
    DateTime.msPerDay, DateTime.msPerHour.
  lia.
Qed.

Lemma digits_app (n : nat) :
  forall s d rest tail,
    RegExp.digits n s = Some (d, rest) ->
    RegExp.digits n (s ++ tail)%string = Some (d, (rest ++ tail)%string).
Proof.
  induction n as [|n IH]; intros s d rest tail H.
  - injection H as <- <-. reflexivity.
  - destruct s as [|c s]; [discriminate|]. cbn [RegExp.digits append] in *.
    destruct (RegExp.is_digit c); [|discriminate].
    destruct (RegExp.digits n s) as [[d' rest']|] eqn:E; [|discriminate].
    injection H as <- <-. rewrite (IH s d' rest' tail E). reflexivity.
Qed.

Lemma char_app (f : ascii -> bool) (s rest tail : string) :
  RegExp.char f s = Some rest ->
  RegExp.char f (s ++ tail)%string = Some (rest ++ tail)%string.
Proof.
  destruct s as [|c s]; [discriminate|]. cbn [RegExp.char append].
  destruct (f c); [|discriminate]. intros H. injection H as <-. reflexivity.
Qed.

(** A match looks at the characters of the pattern only: what follows them
    does not matter. *)
Lemma match_here_app (s tail : string) (p : RegExp.parts) :
  RegExp.match_here s = Some p ->
  RegExp.match_here (s ++ tail)%string = Some p.
Proof.
  unfold RegExp.match_here, RegExp.lit. intros H.
  repeat step_match H.
  repeat match goal with
         | E : RegExp.digits _ _ = Some _ |- _ =>
             rewrite (digits_app _ _ _ _ tail E); clear E;
             cbn [RegExp.andThen]
         | E : RegExp.char _ _ = Some _ |- _ =>
             rewrite (char_app _ _ _ tail E); clear E;
             cbn [RegExp.andThen]
         end.
  exact H.
Qed.

(** The search finds a match wherever the pattern occurs. *)
Lemma exec_found (pre s : string) (p : RegExp.parts) :
  RegExp.match_here s = Some p ->
  exists p', RegExp.exec (pre ++ s)%string = Some p'.
Proof.
  intros H. induction pre as [|c pre IH]; cbn [append].
  - destruct s as [|c s]; cbn [RegExp.exec]; rewrite H; eauto.
  - cbn [RegExp.exec].
    destruct (RegExp.match_here (String c (pre ++ s))) as [q|]; eauto.
Qed.

(** What the search returns is a match at some position of the string. *)
Lemma exec_position (s : string) (p : RegExp.parts) :
  RegExp.exec s = Some p ->
  exists pre rest, s = (pre ++ rest)%string /\ RegExp.match_here rest = Some p.
Proof.
  induction s as [|c s IH]; cbn [RegExp.exec]; intros H.
  - destruct (RegExp.match_here "") as [q|] eqn:E; [|discriminate].
    injection H as <-. exists "", "". auto.
  - destruct (RegExp.match_here (String c s)) as [q|] eqn:E.
    + injection H as <-. exists "", (String c s). auto.
    + destruct (IH H) as (pre & rest & -> & Hm).
      exists (String c pre), rest. auto.
Qed.

(** X6. The pattern is searched for, not matched against the whole string:
    in a time zone within a day of UTC, a string the direct parse rejects
    gets a valid Date as soon as a DD/MM/YYYY HH:MM:SS timestamp occurs
    somewhere in it, whatever stands before and after; and a valid Date from
    the pattern path always comes from such an occurrence. *)
Theorem parseTimestamp_pattern_anywhere :
  (forall t, Z.abs (LocalTZA t) <= DateTime.msPerDay) ->
  (forall pre s post p,
      RegExp.match_here s = Some p ->
      Date_of_value (VString (pre ++ s ++ post)) = None ->
      exists t, parseTimestamp (VString (pre ++ s ++ post)) = Normal (Some t))
  /\ (forall s t,
        Date_of_value (VString s) = None ->
        parseTimestamp (VString s) = Normal (Some t) ->
        exists pre rest p,
          s = (pre ++ rest)%string
          /\ RegExp.match_here rest = Some p
          /\ Date_of_parts p = Some t).
Proof.
  intros Htz. split.
  - intros pre s post p Hm Hd.
    destruct (exec_found pre (s ++ post) p (match_here_app s post p Hm))
      as [p' Hp'].
    rewrite (parseTimestamp_pattern _ Hd), Hp'.
    destruct (exec_in_range _ p' Hp') as (H1 & H2 & H3 & H4 & H5 & H6).
    unfold Date_of_parts. rewrite Date_of_fields_valid; auto; try lia.
    eauto.
  - intros s t Hd Hp. rewrite (parseTimestamp_pattern s Hd) in Hp.
    destruct (RegExp.exec s) as [p|] eqn:E; [|discriminate].
    injection Hp as Hp.
    destruct (exec_position s p E) as (pre & rest & -> & Hm).
    exists pre, rest, p. auto.
Qed.

(** ** More on the history list *)

Lemma filter_place (t : Z) (element : Reading) (before : list Reading) :
  all_valid (element :: before) ->
  filter (at_instant t) (place element before)
  = if at_instant t element
    then element :: filter (at_instant t) before
    else filter (at_instant t) before.
Proof.
  intros Hv. inversion Hv as [|? ? He Hb]; subst. clear Hv.
  destruct (valid_instant element He) as [te Hte].
  induction before as [|tmp rest IH]; cbn [place filter].
  - destruct (at_instant t element); reflexivity.
  - inversion Hb as [|? ? Htmp Hrest]; subst.
    destruct (valid_instant tmp Htmp) as [tt Htt].
    rewrite Hte, Htt. cbn [Date_sub SortCompare].
    destruct (0 <? te - tt) eqn:E; cbn [filter]; [|reflexivity].
    apply Z.ltb_lt in E. rewrite (IH Hrest).
    assert (Hae : at_instant t element = (te =? t))
      by (unfold at_instant; rewrite Hte; reflexivity).
    assert (Hat : at_instant t tmp = (tt =? t))
      by (unfold at_instant; rewrite Htt; reflexivity).
    rewrite Hae, Hat.
    destruct (te =? t) eqn:Et; [|reflexivity].
    apply Z.eqb_eq in Et.
    replace (tt =? t) with false by (symmetry; apply Z.eqb_neq; lia).
    reflexivity.
Qed.

Lemma filter_fold_place (t : Z) (l : list Reading) :
  forall before,
    all_valid before -> all_valid l ->
    filter (at_instant t)
      (fold_left (fun before element => place element before) l before)
    = rev (filter (at_instant t) l) ++ filter (at_instant t) before.
Proof.
  induction l as [|a l IH]; intros before Hb Hl; [reflexivity|].
  inversion Hl as [|? ? Ha Hl']; subst. cbn [fold_left filter].
  rewrite IH; auto.
  - rewrite filter_place by (constructor; assumption).
    destruct (at_instant t a); [|reflexivity].
    cbn [rev]. rewrite <- app_assoc. reflexivity.
  - unfold all_valid. eapply Permutation_Forall; [apply place_Permutation|].
    constructor; assumption.
Qed.

Lemma filter_rev_list {A : Type} (f : A -> bool) (l : list A) :
  filter f (rev l) = rev (filter f l).
Proof.
  induction l as [|a l IH]; [reflexivity|].
  cbn [rev filter]. rewrite filter_app, IH. cbn [filter].
  destruct (f a); [reflexivity|]. apply app_nil_r.
Qed.

Lemma history_filter (t : Z) (l h : list Reading) :
  all_valid l -> history l = Normal h ->
  filter (at_instant t) h = filter (at_instant t) l.
Proof.
  intros Hv Hh. rewrite history_placed in Hh. injection Hh as <-.
  rewrite filter_rev_list, filter_fold_place; auto; [|constructor].
  cbn [filter]. rewrite app_nil_r. apply rev_involutive.
Qed.

(** X7. When every reading has a valid instant, the history list holds
    the same readings, ordered from the most recent to the oldest, and the
    readings that share an instant stay in the order they arrived in. *)
Theorem history_sorted_stable (l : list Reading) :
  all_valid l ->
  exists h,
    history l = Normal h
    /\ Permutation l h
    /\ StronglySorted newer_or_same h
    /\ (forall t, filter (at_instant t) h = filter (at_instant t) l).
Proof.
  intros Hv.
  destruct (history_sorted_valid l Hv) as (h & Hh & Hp & Hs & _).
  exists h. repeat split; auto.
  intros t. apply history_filter; assumption.
Qed.

(** X8. When every reading has a valid instant and there is one at least,
    the first entry of the history list is the reading [latestReading]
    returns: the card and the top of the list show the same reading. *)
Theorem history_head_latest (l : list Reading) :
  l <> [] -> all_valid l ->
  exists r rest,
    latestReading l = Normal (Some r) /\ history l = Normal (r :: rest).
Proof.
  intros Hne Hv.
  destruct l as [|first others]; [contradiction|].
  destruct (reduce_later_first_greatest others first)
    as (pre & r & post & t & Heq & Hr & Hi & Hpre & Hpost).
  { exists first. split; [left; reflexivity|].
    inversion Hv; assumption. }
  destruct (history_sorted_valid _ Hv) as (h & Hh & Hp & Hs & _).
  assert (Hf : filter (at_instant t) h
               = filter (at_instant t) (first :: others)).
  { apply history_filter; assumption. }
  assert (Hpre0 : filter (at_instant t) pre = []).
  { assert (Hvp : all_valid pre).
    { unfold all_valid in *. rewrite Heq in Hv.
      apply Forall_app in Hv. tauto. }
    clear - Hpre Hvp. induction pre as [|a pre IH]; [reflexivity|].
    inversion Hvp as [|? ? Ha Hvp']; subst. cbn [filter].
    destruct (valid_instant a Ha) as [ta Hta].
    pose proof (Hpre a ta (or_introl eq_refl) Hta).
    replace (at_instant t a) with false
      by (unfold at_instant; rewrite Hta; symmetry; apply Z.eqb_neq; lia).
    apply IH; auto. intros x tx Hin. apply Hpre. right. exact Hin. }
  rewrite Heq, filter_app, Hpre0 in Hf. cbn [app filter] in Hf.
  assert (Hr_at : at_instant t r = true)
    by (unfold at_instant; rewrite Hi; apply Z.eqb_refl).
  rewrite Hr_at in Hf.
  exists r. cbn [latestReading]. rewrite Hr.
  destruct h as [|x h']; [discriminate|].
  exists h'. split; [reflexivity|]. rewrite Hh. do 2 f_equal.
  assert (Hx : at_instant t x = true).
  { assert (Hrin : In r (x :: h')).
    { eapply Permutation_in; [exact Hp|]. rewrite Heq.
      apply in_or_app. right. left. reflexivity. }
    assert (Hxin : In x (pre ++ r :: post)).
    { rewrite <- Heq. eapply Permutation_in;
        [apply Permutation_sym; exact Hp|left; reflexivity]. }
    assert (Hxv : exists tx, instant x = Some tx /\ tx <= t).
    { destruct (valid_instant x) as [tx Htx].
      { unfold all_valid in Hv. rewrite Forall_forall in Hv. apply Hv.
        rewrite Heq. exact Hxin. }
      exists tx. split; [exact Htx|].
      apply in_app_or in Hxin. destruct Hxin as [Hin|[<-|Hin]].
      - pose proof (Hpre x tx Hin Htx). lia.
      - rewrite Hi in Htx. injection Htx as <-. lia.
      - exact (Hpost x tx Hin Htx). }
    destruct Hxv as (tx & Htx & Hle).
    assert (Hge : t <= tx).
    { destruct Hrin as [<-|Hrin].
      - rewrite Hi in Htx. injection Htx as <-. lia.
      - inversion Hs as [|? ? _ Hall]; subst.
        rewrite Forall_forall in Hall.
        destruct (Hall r Hrin) as (t1 & t2 & H1 & H2 & H12).
        rewrite Hi in H1. rewrite Htx in H2.
        injection H1 as <-. injection H2 as <-. exact H12. }
    unfold at_instant. rewrite Htx. apply Z.eqb_eq. lia. }
  cbn [filter] in Hf. rewrite Hx in Hf. injection Hf as Hxr _. exact Hxr.
Qed.

(** ** More on the chart *)

Lemma chartData_slice (l : list Reading) :
  chartData l
  = Normal {| labels := map (fun dado => toLocaleTimeString (instant dado))
                          (slice (-6) l);
              data := map leitura (slice (-6) l) |}.
Proof. unfold chartData. rewrite mapM_labels. reflexivity. Qed.

Lemma skipn_S_tl {A : Type} (k : nat) (l : list A) :
  skipn (S k) l = tl (skipn k l).
Proof.
  revert l. induction k as [|k IH]; intros [|a l]; try reflexivity.
  cbn [skipn]. rewrite <- IH. reflexivity.
Qed.

Lemma map_tl {A B : Type} (f : A -> B) (l : list A) :
  map f (tl l) = tl (map f l).
Proof. destruct l; reflexivity. Qed.

(** A new element enters the window at the end; once six are there, the
    oldest of them leaves. *)
Lemma slice_push {A : Type} (l : list A) (r : A) :
  slice (-6) (l ++ [r])
  = (if (6 <=? List.length l)%nat then tl (slice (-6) l) else slice (-6) l)
    ++ [r].
Proof.
  rewrite !slice_last_six, length_app. cbn [List.length].
  destruct (6 <=? List.length l)%nat eqn:E.
  - apply Nat.leb_le in E. rewrite <- skipn_S_tl.
    replace (List.length l + 1 - 6)%nat with (S (List.length l - 6)) by lia.
    rewrite skipn_app.
    replace (S (List.length l - 6) - List.length l)%nat with 0%nat by lia.
    reflexivity.
  - apply Nat.leb_gt in E.
    replace (List.length l + 1 - 6)%nat with 0%nat by lia.
    replace (List.length l - 6)%nat with 0%nat by lia.
    reflexivity.
Qed.

(** X9. The chart is a sliding window over the readings: when a reading is
    appended to the list, its label and value are appended to the series of
    the chart, and the first point of the chart is dropped if the list held
    six readings or more. *)
Theorem chartData_push (l : list Reading) (r : Reading) :
  exists cd cd',
    chartData l = Normal cd
    /\ chartData (l ++ [r]) = Normal cd'
    /\ data cd'
       = (if (6 <=? List.length l)%nat then tl (data cd) else data cd)
         ++ [leitura r]
    /\ labels cd'
       = (if (6 <=? List.length l)%nat then tl (labels cd) else labels cd)
         ++ [toLocaleTimeString (instant r)].
Proof.
  do 2 eexists. split; [apply chartData_slice|].
  split; [apply chartData_slice|].
  cbn [data labels]. rewrite slice_push, !map_app. cbn [map].
  destruct (6 <=? List.length l)%nat; rewrite ?map_tl; split; reflexivity.
Qed.

(** X10. Whenever the condition under which the chart is rendered holds,
    the series handed to it are not empty: the chart has between one and six
    points, and as many labels as values. *)
Theorem chartVisible_series (s : State) :
  chartVisible s = true ->
  exists cd,
    chartData (leituras s) = Normal cd
    /\ (1 <= List.length (data cd) <= 6)%nat
    /\ List.length (labels cd) = List.length (data cd).
Proof.
  unfold chartVisible. intros H. apply andb_prop in H as [_ H].
  apply Z.ltb_lt in H.
  eexists. split; [apply chartData_slice|]. cbn [data labels].
  rewrite !length_map, slice_last_six, length_skipn. lia.
Qed.

End App.

(** ** [fetchData] *)

Lemma failed_cases (o : outcome) :
  failed o = true
  <-> o = Rejected
      \/ (exists b, o = Response false b)
      \/ o = Response true Malformed.
Proof.
  split.
  - destruct o as [|[|] [j|]]; cbn; intros H; try discriminate; eauto.
  - intros [->|[[b ->]| ->]]; reflexivity.
Qed.

(** C7. A successful fetch whose body is not an array leaves no readings and
    no error.  After an attempt the error is "Falha ao carregar os dados."
    when the request was rejected, the response was not ok or the body could
    not be decoded, and it is absent after every other attempt, whatever the
    state before: a success clears the error of an earlier failure. *)
Theorem fetchData_error (now : Date) (s : State) :
  (leituras (fetchData now (Response true (Parsed JOther)) s) = []
   /\ error (fetchData now (Response true (Parsed JOther)) s) = None)
  /\ (forall o,
        error (fetchData now o s)
        = if failed o then Some "Falha ao carregar os dados." else None)
  /\ (forall o,
        error (fetchData now o s) <> None
        <-> o = Rejected
            \/ (exists b, o = Response false b)
            \/ o = Response true Malformed)
  /\ (forall later o j,
        error (fetchData later (Response true (Parsed j)) (fetchData now o s))
        = None).
Proof.
  repeat split.
  - intros o. destruct o as [|[|] [j|]]; reflexivity.
  - intros H. apply failed_cases.
    destruct o as [|[|] [j|]]; cbn in *; congruence.
  - intros H. apply failed_cases in H.
    destruct o as [|[|] [j|]]; cbn in *; congruence.
Qed.

(** C9. A failed attempt leaves the readings and the time of the last
    refresh as they were: it sets the error and clears the two loading
    flags, and nothing else. *)
Theorem fetchData_failure (now : Date) (o : outcome) (s : State) :
  failed o = true ->
  fetchData now o s
  = {| leituras := leituras s;
       loading := false;
       initialLoading := false;
       error := Some "Falha ao carregar os dados.";
       lastRefresh := lastRefresh s |}.
Proof.
  intros H. unfold fetchData, failed in *.
  destruct (decode o); [discriminate|]. reflexivity.
Qed.

(** A successful attempt replaces the readings and the time instead. *)
Lemma fetchData_success (now : Date) (j : json) (s : State) :
  fetchData now (Response true (Parsed j)) s
  = {| leituras := match j with JArray a => a | JOther => [] end;
       loading := false;
       initialLoading := false;
       error := None;
       lastRefresh := now |}.
Proof. reflexivity. Qed.

(** * The properties on the reference host *)

(** Witness of [latestReading_all_invalid]: two readings without a usable
    timestamp, of which the second is returned. *)
Lemma latestReading_all_invalid_witness :
  Forall (fun r => instant Ref.Date_parse Ref.LocalTZA r = InvalidDate)
    [Sample.absent; Sample.blank]
  /\ latestReading Ref.Date_parse Ref.LocalTZA [Sample.absent; Sample.blank]
     = Normal (Some Sample.blank).
Proof.
  assert (H : Forall (fun r => instant Ref.Date_parse Ref.LocalTZA r
                               = InvalidDate)
                [Sample.absent; Sample.blank])
    by (repeat constructor).
  split; [exact H|].
  exact (latestReading_all_invalid Ref.Date_parse Ref.LocalTZA
           Sample.absent [Sample.blank] H).
Defined.

(** C1 fails as stated: every instant of this list is invalid and the
    reading returned is the second one, not the first. *)
Lemma latestReading_not_first :
  Forall (fun r => instant Ref.Date_parse Ref.LocalTZA r = InvalidDate)
    [Sample.absent; Sample.blank]
  /\ latestReading Ref.Date_parse Ref.LocalTZA [Sample.absent; Sample.blank]
     = Normal (Some Sample.blank)
  /\ Sample.blank <> Sample.absent.
Proof.
  split; [repeat constructor|]. split; [reflexivity|].
  intros H. apply (f_equal id) in H. discriminate H.
Qed.

(** Witness of [latestReading_greatest]: three readings with valid, distinct
    instants, in two orders. *)
Lemma latestReading_greatest_witness :
  all_valid Ref.Date_parse Ref.LocalTZA
    [Sample.newyear; Sample.boxing; Sample.christmas]
  /\ distinct_instants Ref.Date_parse Ref.LocalTZA
       [Sample.newyear; Sample.boxing; Sample.christmas]
  /\ (exists r t,
        latestReading Ref.Date_parse Ref.LocalTZA
          [Sample.newyear; Sample.boxing; Sample.christmas]
        = Normal (Some r)
        /\ In r [Sample.newyear; Sample.boxing; Sample.christmas]
        /\ instant Ref.Date_parse Ref.LocalTZA r = Some t
        /\ (forall r',
              In r' [Sample.newyear; Sample.boxing; Sample.christmas] ->
              r' <> r ->
              exists t', instant Ref.Date_parse Ref.LocalTZA r' = Some t'
                         /\ t' < t))
  /\ latestReading Ref.Date_parse Ref.LocalTZA
       [Sample.christmas; Sample.newyear; Sample.boxing]
     = latestReading Ref.Date_parse Ref.LocalTZA
         [Sample.newyear; Sample.boxing; Sample.christmas].
Proof.
  assert (Hv : all_valid Ref.Date_parse Ref.LocalTZA
                 [Sample.newyear; Sample.boxing; Sample.christmas])
    by (repeat constructor).
  assert (Hd : distinct_instants Ref.Date_parse Ref.LocalTZA
                 [Sample.newyear; Sample.boxing; Sample.christmas]).
  { unfold distinct_instants.
    change (NoDup [Some 1704106800000; Some 1735207200000;
                   Some 1735147800000]).
    repeat constructor; cbn; intuition discriminate. }
  assert (Hne : [Sample.newyear; Sample.boxing; Sample.christmas] <> [])
    by discriminate.
  assert (Hp : Permutation [Sample.newyear; Sample.boxing; Sample.christmas]
                 [Sample.christmas; Sample.newyear; Sample.boxing])
    by exact (Permutation_sym
                (Permutation_cons_append
                   [Sample.newyear; Sample.boxing] Sample.christmas)).
  split; [exact Hv|]. split; [exact Hd|]. split.
  - exact (proj1 (latestReading_greatest Ref.Date_parse Ref.LocalTZA)
             _ Hne Hv Hd).
  - exact (proj1 (proj2 (latestReading_greatest Ref.Date_parse Ref.LocalTZA))
             _ _ Hv Hd Hp).
Defined.

(** C2 fails as stated: the candidate replaces the latest although its
    instant is not strictly greater, both instants being invalid. *)
Lemma later_replaces_invalid :
  later Ref.Date_parse Ref.LocalTZA Sample.absent Sample.blank
  = Normal Sample.blank
  /\ Sample.blank <> Sample.absent
  /\ instant Ref.Date_parse Ref.LocalTZA Sample.absent = InvalidDate
  /\ instant Ref.Date_parse Ref.LocalTZA Sample.blank = InvalidDate
  /\ Date_gt (instant Ref.Date_parse Ref.LocalTZA Sample.blank)
       (instant Ref.Date_parse Ref.LocalTZA Sample.absent) = false.
Proof.
  split; [reflexivity|]. split; [|repeat split].
  intros H. apply (f_equal id) in H. discriminate H.
Qed.

(** C3 at a failing input: the reading without a timestamp stays ahead of
    the one with a valid instant, since their comparison is NaN. *)
Theorem history_invalid_first :
  instant Ref.Date_parse Ref.LocalTZA Sample.absent = InvalidDate
  /\ instant Ref.Date_parse Ref.LocalTZA Sample.christmas
     = Some 1735147800000
  /\ newest_first Ref.Date_parse Ref.LocalTZA Sample.absent Sample.christmas
     = Normal None
  /\ history Ref.Date_parse Ref.LocalTZA [Sample.absent; Sample.christmas]
     = Normal [Sample.absent; Sample.christmas].
Proof. repeat split. Qed.


(** The chart of eight readings shows the last six, in their order. *)
Lemma chartData_eight :
  exists cd,
    chartData Ref.Date_parse Ref.LocalTZA Ref.toLocaleTimeString Sample.eight
    = Normal cd
    /\ List.length (labels cd) = 6%nat
    /\ data cd = map Number.of_Z [13; 14; 15; 16; 17; 18].
Proof. eexists. repeat split. Qed.


(** Witness of [fetchData_failure]: a rejected request over a state that
    shows two readings. *)
Lemma fetchData_failure_witness :
  failed Rejected = true
  /\ fetchData (Some 2000) Rejected Sample.showing
     = {| leituras := [Sample.christmas; Sample.boxing];
          loading := false;
          initialLoading := false;
          error := Some "Falha ao carregar os dados.";
          lastRefresh := Some 1000 |}.
Proof.
  split; [reflexivity|].
  exact (fetchData_failure (Some 2000) Rejected Sample.showing eq_refl).
Defined.

(** * The polling cycle *)

Lemma run_app (es : list event) (e : event) (s : State) :
  run (es ++ [e]) s = step (run es s) e.
Proof. unfold run. rewrite fold_left_app. reflexivity. Qed.

Lemma last_settled_app (es : list event) (e : event) :
  last_settled (es ++ [e])
  = match e with
    | Settle _ o => Some o
    | Start => last_settled es
    end.
Proof.
  induction es as [|a es IH]; cbn [app last_settled].
  - destruct e; reflexivity.
  - rewrite IH. destruct e; [|reflexivity].
    destruct (last_settled es); reflexivity.
Qed.

Lemma last_stored_app (es : list event) (e : event) :
  last_stored (es ++ [e])
  = match e with
    | Settle now o =>
        match decode o with
        | Normal data => Some (now, data)
        | Throw _ => last_stored es
        end
    | Start => last_stored es
    end.
Proof.
  induction es as [|a es IH]; cbn [app last_stored].
  - destruct e as [|now o]; [reflexivity|]. destruct (decode o); reflexivity.
  - rewrite IH. destruct e as [|now o].
    + destruct (last_stored es); reflexivity.
    + destruct (decode o); [reflexivity|].
      destruct (last_stored es); reflexivity.
Qed.

(** X11. However the starts and the settlements of the requests interleave,
    the state shows the error of the request that settled last (the message
    when it failed, none when it succeeded), and the readings and the refresh
    time of the request that succeeded last; it keeps those of the initial
    state until a request settles, respectively succeeds.  A failure never
    changes the readings shown, and readings are replaced, never merged. *)
Theorem run_shows_last (es : list event) (s : State) :
  error (run es s)
  = match last_settled es with
    | Some o => if failed o then Some "Falha ao carregar os dados." else None
    | None => error s
    end
  /\ leituras (run es s)
     = match last_stored es with
       | Some (_, data) => readings_of data
       | None => leituras s
       end
  /\ lastRefresh (run es s)
     = match last_stored es with
       | Some (now, _) => now
       | None => lastRefresh s
       end.
Proof.
  induction es as [|e es IH] using rev_ind; [repeat split|].
  destruct IH as (He & Hl & Hr).
  rewrite run_app, last_settled_app, last_stored_app.
  destruct e as [|now o]; cbn [step].
  - unfold begin. cbn. auto.
  - unfold settle, failed.
    destruct (decode o) as [data|x]; cbn; auto.
Qed.

(** X12. One call of [fetchData] is a start followed by its settlement.
    Over any interleaving, [initialLoading] is false from the first
    settlement on and is never set again, and [loading] tells whether the
    last event was a start: with two requests in flight, the settlement of
    one clears it while the other is still pending. *)
Theorem run_flags (es : list event) (s : State) :
  (forall now o, fetchData now o s = run [Start; Settle now o] s)
  /\ initialLoading (run es s)
     = match last_settled es with
       | Some _ => false
       | None => initialLoading s
       end
  /\ loading (run es s)
     = match rev es with
       | [] => loading s
       | Start :: _ => true
       | Settle _ _ :: _ => false
       end.
Proof.
  split; [reflexivity|].
  induction es as [|e es IH] using rev_ind; [split; reflexivity|].
  destruct IH as (Hi & Hl).
  rewrite run_app, last_settled_app, rev_app_distr. cbn [rev app].
  destruct e as [|now o]; cbn [step].
  - unfold begin. cbn. auto.
  - unfold settle. destruct (decode o); cbn; auto.
Qed.

(** * The further properties on the reference host *)

(** Witness of [latestReading_first_greatest]: readings without a usable
    timestamp before and between readings with valid instants. *)
Lemma latestReading_first_greatest_witness :
  (exists x,
      In x [Sample.absent; Sample.newyear; Sample.blank; Sample.boxing;
            Sample.christmas]
      /\ invalid (instant Ref.Date_parse Ref.LocalTZA x) = false)
  /\ latestReading Ref.Date_parse Ref.LocalTZA
       [Sample.absent; Sample.newyear; Sample.blank; Sample.boxing;
        Sample.christmas]
     = Normal (Some Sample.boxing)
  /\ (exists pre r post t,
        [Sample.absent; Sample.newyear; Sample.blank; Sample.boxing;
         Sample.christmas] = pre ++ r :: post
        /\ latestReading Ref.Date_parse Ref.LocalTZA
             [Sample.absent; Sample.newyear; Sample.blank; Sample.boxing;
              Sample.christmas]
           = Normal (Some r)
        /\ instant Ref.Date_parse Ref.LocalTZA r = Some t
        /\ (forall x tx,
              In x pre -> instant Ref.Date_parse Ref.LocalTZA x = Some tx ->
              tx < t)
        /\ (forall x tx,
              In x post -> instant Ref.Date_parse Ref.LocalTZA x = Some tx ->
              tx <= t)).
Proof.
  assert (H : exists x,
             In x [Sample.absent; Sample.newyear; Sample.blank;
                   Sample.boxing; Sample.christmas]
             /\ invalid (instant Ref.Date_parse Ref.LocalTZA x) = false).
  { exists Sample.newyear. split; [right; left; reflexivity|reflexivity]. }
  split; [exact H|]. split; [reflexivity|].
  exact (proj2 (latestReading_first_greatest Ref.Date_parse Ref.LocalTZA _) H).
Defined.

(** Witness of [parseTimestamp_in_range]. *)
Lemma parseTimestamp_in_range_witness :
  parseTimestamp Ref.Date_parse Ref.LocalTZA (VString "25/12/2024 14:30:00")
  = Normal (Some 1735147800000)
  /\ Z.abs 1735147800000 <= 8640000000000000.
Proof.
  split; [reflexivity|].
  exact (parseTimestamp_in_range Ref.Date_parse Ref.LocalTZA
           (VString "25/12/2024 14:30:00") 1735147800000 eq_refl).
Defined.

(** Witness of [parseTimestamp_short_year]: the year 0024 is read as 1924. *)
Lemma parseTimestamp_short_year_witness :
  Ref.Date_parse "25/12/0024 14:30:00" = None
  /\ Ref.Date_parse "25/12/1924 14:30:00" = None
  /\ RegExp.exec "25/12/0024 14:30:00"
     = Some {| RegExp.part1 := "25"; RegExp.part2 := "12";
               RegExp.part3 := "0024"; RegExp.part4 := "14";
               RegExp.part5 := "30"; RegExp.part6 := "00" |}
  /\ RegExp.exec "25/12/1924 14:30:00"
     = Some {| RegExp.part1 := "25"; RegExp.part2 := "12";
               RegExp.part3 := "1924"; RegExp.part4 := "14";
               RegExp.part5 := "30"; RegExp.part6 := "00" |}
  /\ parseTimestamp Ref.Date_parse Ref.LocalTZA (VString "25/12/0024 14:30:00")
     = parseTimestamp Ref.Date_parse Ref.LocalTZA
         (VString "25/12/1924 14:30:00").
Proof.
  repeat (split; [reflexivity|]).
  refine (parseTimestamp_short_year Ref.Date_parse Ref.LocalTZA
            "25/12/0024 14:30:00" "25/12/1924 14:30:00" _ _
            eq_refl eq_refl eq_refl eq_refl _ eq_refl
            eq_refl eq_refl eq_refl eq_refl eq_refl).
  cbv. discriminate.
Defined.

(** Witness of [parseTimestamp_hour_carry]: 24:30 on the 25th is 00:30 on
    the 26th. *)
Lemma parseTimestamp_hour_carry_witness :
  Ref.Date_parse "25/12/2024 24:30:00" = None
  /\ Ref.Date_parse "26/12/2024 00:30:00" = None
  /\ RegExp.exec "25/12/2024 24:30:00"
     = Some {| RegExp.part1 := "25"; RegExp.part2 := "12";
               RegExp.part3 := "2024"; RegExp.part4 := "24";
               RegExp.part5 := "30"; RegExp.part6 := "00" |}
  /\ RegExp.exec "26/12/2024 00:30:00"
     = Some {| RegExp.part1 := "26"; RegExp.part2 := "12";
               RegExp.part3 := "2024"; RegExp.part4 := "00";
               RegExp.part5 := "30"; RegExp.part6 := "00" |}
  /\ parseTimestamp Ref.Date_parse Ref.LocalTZA (VString "25/12/2024 24:30:00")
     = parseTimestamp Ref.Date_parse Ref.LocalTZA
         (VString "26/12/2024 00:30:00").
Proof.
  repeat (split; [reflexivity|]).
  exact (parseTimestamp_hour_carry Ref.Date_parse Ref.LocalTZA
           "25/12/2024 24:30:00" "26/12/2024 00:30:00" _ _
           eq_refl eq_refl eq_refl eq_refl eq_refl eq_refl
           eq_refl eq_refl eq_refl eq_refl).
Defined.

(** Witness of [parseTimestamp_pattern_anywhere]: text around the
    timestamp. *)
Lemma parseTimestamp_pattern_anywhere_witness :
  (forall t, Z.abs (Ref.LocalTZA t) <= DateTime.msPerDay)
  /\ Ref.Date_parse "em 25/12/2024 14:30:00h" = None
  /\ parseTimestamp Ref.Date_parse Ref.LocalTZA
       (VString "em 25/12/2024 14:30:00h")
     = Normal (Some 1735147800000)
  /\ exists t,
       parseTimestamp Ref.Date_parse Ref.LocalTZA
         (VString ("em " ++ "25/12/2024 14:30:00" ++ "h"))
       = Normal (Some t).
Proof.
  assert (Htz : forall t, Z.abs (Ref.LocalTZA t) <= DateTime.msPerDay)
    by (intros t; cbv; discriminate).
  split; [exact Htz|]. split; [reflexivity|]. split; [reflexivity|].
  exact (proj1 (parseTimestamp_pattern_anywhere Ref.Date_parse Ref.LocalTZA
                  Htz)
           "em " "25/12/2024 14:30:00" "h" _ eq_refl eq_refl).
Defined.

(** Witness of [history_sorted_stable] and of [history_head_latest]: three
    readings with valid instants. *)
Lemma history_sorted_stable_witness :
  all_valid Ref.Date_parse Ref.LocalTZA
    [Sample.newyear; Sample.boxing; Sample.christmas]
  /\ history Ref.Date_parse Ref.LocalTZA
       [Sample.newyear; Sample.boxing; Sample.christmas]
     = Normal [Sample.boxing; Sample.christmas; Sample.newyear]
  /\ exists h,
       history Ref.Date_parse Ref.LocalTZA
         [Sample.newyear; Sample.boxing; Sample.christmas]
       = Normal h
       /\ Permutation [Sample.newyear; Sample.boxing; Sample.christmas] h
       /\ StronglySorted (newer_or_same Ref.Date_parse Ref.LocalTZA) h
       /\ (forall t,
             filter (at_instant Ref.Date_parse Ref.LocalTZA t) h
             = filter (at_instant Ref.Date_parse Ref.LocalTZA t)
                 [Sample.newyear; Sample.boxing; Sample.christmas]).
Proof.
  assert (Hv : all_valid Ref.Date_parse Ref.LocalTZA
                 [Sample.newyear; Sample.boxing; Sample.christmas])
    by (repeat constructor).
  split; [exact Hv|]. split; [reflexivity|].
  exact (history_sorted_stable Ref.Date_parse Ref.LocalTZA _ Hv).
Defined.

Lemma history_head_latest_witness :
  [Sample.newyear; Sample.boxing; Sample.christmas] <> []
  /\ all_valid Ref.Date_parse Ref.LocalTZA
       [Sample.newyear; Sample.boxing; Sample.christmas]
  /\ exists r rest,
       latestReading Ref.Date_parse Ref.LocalTZA
         [Sample.newyear; Sample.boxing; Sample.christmas]
       = Normal (Some r)
       /\ history Ref.Date_parse Ref.LocalTZA
            [Sample.newyear; Sample.boxing; Sample.christmas]
          = Normal (r :: rest).
Proof.
  assert (Hne : [Sample.newyear; Sample.boxing; Sample.christmas] <> [])
    by discriminate.
  assert (Hv : all_valid Ref.Date_parse Ref.LocalTZA
                 [Sample.newyear; Sample.boxing; Sample.christmas])
    by (repeat constructor).
  split; [exact Hne|]. split; [exact Hv|].
  exact (history_head_latest Ref.Date_parse Ref.LocalTZA _ Hne Hv).
Defined.

(** Witness of [chartVisible_series]: a state that shows two readings. *)
Lemma chartVisible_series_witness :
  chartVisible Sample.showing = true
  /\ exists cd,
       chartData Ref.Date_parse Ref.LocalTZA Ref.toLocaleTimeString
         (leituras Sample.showing)
       = Normal cd
       /\ (1 <= List.length (data cd) <= 6)%nat
       /\ List.length (labels cd) = List.length (data cd).
Proof.
  split; [reflexivity|].
  exact (chartVisible_series Ref.Date_parse Ref.LocalTZA
           Ref.toLocaleTimeString Sample.showing eq_refl).
Defined.

(** Two requests in flight: the first settles with readings, the second is
    rejected.  The error shows, over the readings of the first. *)
Lemma run_overlapping :
  run [Start; Start;
       Settle (Some 2000) (Response true (Parsed (JArray [Sample.christmas])));
       Settle (Some 3000) Rejected]
    (initial (Some 1000))
  = {| leituras := [Sample.christmas];
       loading := false;
       initialLoading := false;
       error := Some "Falha ao carregar os dados.";
       lastRefresh := Some 2000 |}.
Proof. reflexivity. Qed.

(** Witness of [latestReading_instant_order]: the same readings in two
    orders. *)
Lemma latestReading_instant_order_witness :
  Permutation [Sample.absent; Sample.newyear; Sample.boxing]
    [Sample.boxing; Sample.absent; Sample.newyear]
  /\ (exists x,
        In x [Sample.absent; Sample.newyear; Sample.boxing]
        /\ invalid (instant Ref.Date_parse Ref.LocalTZA x) = false)
  /\ exists r r' t,
       latestReading Ref.Date_parse Ref.LocalTZA
         [Sample.absent; Sample.newyear; Sample.boxing]
       = Normal (Some r)
       /\ latestReading Ref.Date_parse Ref.LocalTZA
            [Sample.boxing; Sample.absent; Sample.newyear]
          = Normal (Some r')
       /\ instant Ref.Date_parse Ref.LocalTZA r = Some t
       /\ instant Ref.Date_parse Ref.LocalTZA r' = Some t
       /\ (forall x tx,
             In x [Sample.absent; Sample.newyear; Sample.boxing] ->
             instant Ref.Date_parse Ref.LocalTZA x = Some tx -> tx <= t).
Proof.
  assert (Hp : Permutation [Sample.absent; Sample.newyear; Sample.boxing]
                 [Sample.boxing; Sample.absent; Sample.newyear])
    by exact (Permutation_sym
                (Permutation_cons_append
                   [Sample.absent; Sample.newyear] Sample.boxing)).
  assert (H : exists x,
             In x [Sample.absent; Sample.newyear; Sample.boxing]
             /\ invalid (instant Ref.Date_parse Ref.LocalTZA x) = false).
  { exists Sample.newyear. split; [right; left; reflexivity|reflexivity]. }
  split; [exact Hp|]. split; [exact H|].
  exact (latestReading_instant_order Ref.Date_parse Ref.LocalTZA _ _ Hp H).
Defined.
